(** * iso-git: the Deno shims of isomorphic-git's [fs] and [http] contracts

    A shallow embedding of [src/dn-fs.ts], [src/http.ts] and the iteration
    utilities ([fromValue], [getIterator], [forAwait], [collect]), with the
    properties of the specification stated and settled over it.

    Conventions of the embedding:
    - a promise is modelled by the value it settles to: [Ok a] when it is
      fulfilled, [Throw e] when it is rejected; a synchronous [throw] is a
      [Throw] too, and the callback form keeps the two apart explicitly;
    - mutable objects (the platform's file system, an iterator's captured
      variables, the caller's callback log) are threaded as explicit state;
    - a loop that need not terminate ([forAwait]) takes fuel and returns
      [None] when the fuel runs out. *)

From Stdlib Require Import ZArith List Bool Lia Ascii String.
From stdpp Require Import base option list gmap strings.
Import ListNotations.

Local Open Scope string_scope.
Local Open Scope Z_scope.
Local Open Scope list_scope.

(* ================================================================== *)
(** * Part I. Definitions                                               *)
(* ================================================================== *)

(** ** Errors and settled results *)

(** [NodeError] of [dn-fs.ts]: an [Error] with the optional fields [code]
    and [syscall]. [name] is the constructor's name ([Error], [TypeError],
    [RangeError]). *)
Record NodeError : Type := mkError {
  name : string;
  message : string;
  code : option string;
  syscall : option string
}.

Inductive Result (A : Type) : Type :=
| Ok (a : A)
| Throw (e : NodeError).
Arguments Ok {A} a.
Arguments Throw {A} e.

Definition bind {A B : Type} (r : Result A) (k : A -> Result B) : Result B :=
  match r with
  | Ok a => k a
  | Throw e => Throw e
  end.

Definition plainError (nm msg : string) : NodeError :=
  {| name := nm; message := msg; code := None; syscall := None |}.

(** ** JavaScript values that travel through the iteration utilities *)

(** A [Uint8Array] is the list of its bytes. [VNum] is an integer-valued
    number and [VNaN] the one non-integer number that matters here. *)
Inductive JsValue : Type :=
| VUndefined
| VNull
| VBool (b : bool)
| VNum (n : Z)
| VNaN
| VStr (s : string)
| VBytes (b : list Z).

(** [ToBoolean]: what [if (value)] tests. *)
Definition truthy (v : JsValue) : bool :=
  match v with
  | VUndefined | VNull | VNaN => false
  | VBool b => b
  | VNum n => negb (Z.eqb n 0)
  | VStr s => negb (String.eqb s "")
  | VBytes _ => true
  end.

(** ** The iterator protocol *)

(** What [next()] resolves to: [{ value, done }]. *)
Record IterResult : Type := mkIterResult {
  value : JsValue;
  done : bool
}.

(** An iterator object: the variables it captures ([state], with their
    present contents [current]), its [next] method, which may reject, and
    its optional [return] method. *)
Record Iterator : Type := mkIterator {
  state : Type;
  current : state;
  next : state -> Result IterResult * state;
  return_ : option (state -> state)
}.

(** The same object after its captured variables were updated. *)
Definition withState (it : Iterator) (s : state it) : Iterator :=
  {| state := state it; current := s; next := next it; return_ := return_ it |}.

(** *** [src/utils/fromValue.ts] *)

(** [Array.prototype.pop]: the last element, or [undefined] of an empty
    array, and the array without it. *)
Definition pop (queue : list JsValue) : JsValue * list JsValue :=
  (List.last queue VUndefined, List.removelast queue).

(** [next()] of [fromValue]: [done] is read before [pop] runs. *)
Definition fromValue_next (queue : list JsValue) : Result IterResult * list JsValue :=
  let d := Nat.eqb (List.length queue) 0 in
  let '(v, queue') := pop queue in
  (Ok {| value := v; done := d |}, queue').

(** [return()] of [fromValue]: [queue = []]. *)
Definition fromValue_return (queue : list JsValue) : list JsValue := [].

Definition fromValue (v : JsValue) : Iterator :=
  {| state := list JsValue;
     current := [v];
     next := fromValue_next;
     return_ := Some fromValue_return |}.

(** The calls a holder of an iterator can make. *)
Inductive IterCall : Type :=
| CallNext
| CallReturn.

(** The captured variables after a sequence of calls, and what each
    [next()] of the sequence resolved to. *)
Fixpoint callSequence (it : Iterator) (calls : list IterCall) (s : state it)
  : list (Result IterResult) * state it :=
  match calls with
  | [] => ([], s)
  | CallNext :: rest =>
      let '(r, s') := next it s in
      let '(rs, s'') := callSequence it rest s' in
      (r :: rs, s'')
  | CallReturn :: rest =>
      callSequence it rest (match return_ it with Some ret => ret s | None => s end)
  end.

Definition isNext (c : IterCall) : bool :=
  match c with
  | CallNext => true
  | CallReturn => false
  end.

(** A [next()] that resolved with a value to take: [done] is false. *)
Definition deliversValue (r : Result IterResult) : bool :=
  match r with
  | Ok x => negb (done x)
  | Throw _ => false
  end.

(** What an exhausted iterator resolves to. *)
Definition exhausted : IterResult := {| value := VUndefined; done := true |}.

(** *** [src/utils/getIterator.ts] *)

(** The shapes [getIterator] tells apart: what [iterable[Symbol.asyncIterator]()]
    and [iterable[Symbol.iterator]()] return when the methods exist, the
    object itself as an iterator when it has a [next] method, and the value
    itself, which [fromValue] wraps when nothing else applies. *)
Record Iterable : Type := mkIterable {
  asyncIterator : option Iterator;
  syncIterator : option Iterator;
  nextMethod : option Iterator;
  self : JsValue
}.

Definition getIterator (iterable : Iterable) : Iterator :=
  match asyncIterator iterable with
  | Some it => it
  | None =>
      match syncIterator iterable with
      | Some it => it
      | None =>
          match nextMethod iterable with
          | Some it => it
          | None => fromValue (self iterable)
          end
      end
  end.

(** The built-in array iterator, for array sources such as [[chunk1, chunk2]]:
    it has no [return] method. *)
Definition arrayIterator (items : list JsValue) : Iterator :=
  {| state := nat;
     current := 0%nat;
     next := fun i =>
       match List.nth_error items i with
       | Some v => (Ok {| value := v; done := false |}, S i)
       | None => (Ok {| value := VUndefined; done := true |}, i)
       end;
     return_ := None |}.

Definition arrayIterable (items : list JsValue) : Iterable :=
  {| asyncIterator := None;
     syncIterator := Some (arrayIterator items);
     nextMethod := None;
     self := VUndefined |}.

(** An object that only has [Symbol.asyncIterator]. *)
Definition asyncIterable (it : Iterator) : Iterable :=
  {| asyncIterator := Some it;
     syncIterator := None;
     nextMethod := None;
     self := VUndefined |}.

(** ** Requests, and the trace of a run *)

(** The argument of the platform's [fetch]. *)
Record FetchInit : Type := mkFetchInit {
  f_url : string;
  f_method : string;
  f_headers : gmap string string;
  f_body : option (list Z)
}.

(** What a run does to the outside, in program order: each [next()] it
    awaited with what it resolved to, the [return()] call, the [fetch]. *)
Inductive Event : Type :=
| EvNext (r : Result IterResult)
| EvReturn
| EvFetch (init : FetchInit).

(** *** [forAwait] (src/unnamed/part_003) *)

(** The [while (true)] loop. [cb] is the per-chunk callback acting on the
    variables it captures ([A]); it may throw. *)
Fixpoint forAwait_loop {A : Type} (fuel : nat) (it : Iterator)
  (cb : JsValue -> A -> Result A) (s : state it) (a : A) (tr : list Event)
  : option (Result A * state it * list Event) :=
  match fuel with
  | O => None
  | S fuel' =>
      match next it s with
      | (Throw e, s') => Some (Throw e, s', tr ++ [EvNext (Throw e)])
      | (Ok r, s') =>
          let tr' := tr ++ [EvNext (Ok r)] in
          match (if truthy (value r) then cb (value r) a else Ok a) with
          | Throw e => Some (Throw e, s', tr')
          | Ok a' =>
              if done r then Some (Ok a', s', tr')
              else forAwait_loop fuel' it cb s' a' tr'
          end
      end
  end.

(** [forAwait(iterable, cb)]: the loop, then [iter.return()] when the
    iterator has one and the loop ended by [break]. *)
Definition forAwait {A : Type} (fuel : nat) (iterable : Iterable)
  (cb : JsValue -> A -> Result A) (a : A) (tr : list Event)
  : option (Result A * Iterator * list Event) :=
  let iter := getIterator iterable in
  match forAwait_loop fuel iter cb (current iter) a tr with
  | None => None
  | Some (Throw e, s, tr') => Some (Throw e, withState iter s, tr')
  | Some (Ok a', s, tr') =>
      match return_ iter with
      | Some ret => Some (Ok a', withState iter (ret s), tr' ++ [EvReturn])
      | None => Some (Ok a', withState iter s, tr')
      end
  end.

(** *** [src/utils/collect.ts] *)

(** A count as JavaScript computes it: a natural number, or [NaN] ([None])
    once [undefined] was added to it. *)
Definition num_add (x y : option nat) : option nat :=
  match x, y with
  | Some a, Some b => Some (a + b)%nat
  | _, _ => None
  end.

(** [value.byteLength]: the number of bytes of a [Uint8Array], and
    [undefined] on a boolean, a number or a string. These are the values
    of [JsValue]; buffers and typed arrays of other element types, which
    have a [byteLength] too, are not among them. *)
Definition byteLength (v : JsValue) : option nat :=
  match v with
  | VBytes b => Some (List.length b)
  | _ => None
  end.

(** The callback [collect] hands to [forAwait]: it captures [buffers] and
    [size]. *)
Definition collect_cb (v : JsValue) (acc : list JsValue * option nat)
  : Result (list JsValue * option nat) :=
  let '(buffers, size) := acc in
  Ok (buffers ++ [v], num_add size (byteLength v)).

(** [new Uint8Array(size)]: zero-filled; [NaN] converts to length 0. *)
Definition new_Uint8Array (size : option nat) : list Z :=
  List.repeat 0 (default 0%nat size).

(** [ToNumber] of a one-character string, then the conversion to a byte:
    a decimal digit is its value, anything else ends as 0. *)
Definition charToUint8 (c : ascii) : Z :=
  let n := Z.of_nat (nat_of_ascii c) in
  if andb (48 <=? n) (n <=? 57) then n - 48 else 0.

(** The elements [TypedArray.prototype.set] reads from its source: the
    bytes of a typed array, the characters of a string; a number or a
    boolean has no [length], and nothing is read. *)
Definition arrayLike (v : JsValue) : list Z :=
  match v with
  | VBytes b => b
  | VStr s => List.map charToUint8 (list_ascii_of_string s)
  | _ => []
  end.

(** [target.set(source, offset)]: a [RangeError] when the source does not
    fit; a [NaN] offset converts to 0. *)
Definition Uint8Array_set (target : list Z) (source : JsValue) (offset : option nat)
  : Result (list Z) :=
  let src := arrayLike source in
  let off := default 0%nat offset in
  if (List.length target <? off + List.length src)%nat
  then Throw (plainError "RangeError" "offset is out of bounds")
  else Ok (List.firstn off target ++ src ++ List.skipn (off + List.length src) target).

(** The [for (const buffer of buffers)] loop. *)
Fixpoint collect_copy (buffers : list JsValue) (result : list Z) (nextIndex : option nat)
  : Result (list Z) :=
  match buffers with
  | [] => Ok result
  | buffer :: rest =>
      bind (Uint8Array_set result buffer nextIndex) (fun result' =>
        collect_copy rest result' (num_add nextIndex (byteLength buffer)))
  end.

Definition collect (fuel : nat) (iterable : Iterable) (tr : list Event)
  : option (Result (list Z) * Iterator * list Event) :=
  match forAwait fuel iterable collect_cb ([], Some 0%nat) tr with
  | None => None
  | Some (Throw e, it, tr') => Some (Throw e, it, tr')
  | Some (Ok (buffers, size), it, tr') =>
      Some (collect_copy buffers (new_Uint8Array size) (Some 0%nat), it, tr')
  end.

(** *** [fromStream] (src/unnamed/part_002) *)

(** A stream's reader: the variables it captures, [read()], which may
    reject, and [releaseLock()]. *)
Record Reader : Type := mkReader {
  rd_state : Type;
  rd_current : rd_state;
  read : rd_state -> Result IterResult * rd_state;
  releaseLock : rd_state -> rd_state
}.

(** A web [ReadableStream]: its native async iterator when the platform has
    one, and its reader. *)
Record ReadableStream : Type := mkStream {
  nativeIterator : option Iterator;
  getReader : Reader
}.

(** The object [fromStream] builds around a reader: [next()] is
    [reader.read()] and [return()] is [reader.releaseLock()]. *)
Definition readerIterator (reader : Reader) : Iterator :=
  {| state := rd_state reader;
     current := rd_current reader;
     next := read reader;
     return_ := Some (releaseLock reader) |}.

Definition fromStream (stream : ReadableStream) : Iterable :=
  match nativeIterator stream with
  | Some it => asyncIterable it
  | None =>
      {| asyncIterator := Some (readerIterator (getReader stream));
         syncIterator := None;
         nextMethod := Some (readerIterator (getReader stream));
         self := VUndefined |}
  end.

(** *** [src/http.ts] *)

(** The platform's [Response]. *)
Record Response : Type := mkResponse {
  res_url : string;
  res_status : Z;
  res_statusText : string;
  res_headers : list (string * string);
  res_body : option ReadableStream;
  res_arrayBuffer : Result (list Z)
}.

(** The argument of [request]. [None] stands for a parameter the caller
    left out. A falsy body skips the drain and reaches [fetch] as it is;
    it is [None] here, and a truthy body is the iterable it is used as. *)
Record RequestArgs : Type := mkRequestArgs {
  a_url : string;
  a_method : option string;
  a_headers : option (gmap string string);
  a_body : option Iterable
}.

(** What [request] resolves to. *)
Record RequestResult : Type := mkRequestResult {
  url : string;
  method : string;
  statusCode : Z;
  statusMessage : string;
  body : Iterable;
  headers : gmap string string
}.

(** [headers[key] = value] on the plain object [request] builds; the map
    holds the object's own properties. The key ["__proto__"] names the
    accessor the object inherits: assigning a string to it creates no
    property and changes nothing. (A runtime that has removed the accessor
    stores the key like any other; no other key is affected either way.) *)
Definition setProperty (h : gmap string string) (key value : string) : gmap string string :=
  if String.eqb key "__proto__" then h else <[key := value]> h.

(** [for (const [key, value] of res.headers.entries()) headers[key] = value]. *)
Definition headersObject (entries : list (string * string)) : gmap string string :=
  List.fold_left (fun h kv => setProperty h (fst kv) (snd kv)) entries ∅.

(** What follows the network call in [request]. *)
Definition request_respond (meth : string) (res : Response) : Result RequestResult :=
  bind (match res_body res with
        | Some stream => Ok (fromStream stream)
        | None => bind (res_arrayBuffer res) (fun buf => Ok (arrayIterable [VBytes buf]))
        end)
       (fun iter =>
          Ok {| url := res_url res;
                method := meth;
                statusCode := res_status res;
                statusMessage := res_statusText res;
                body := iter;
                headers := headersObject (res_headers res) |}).

(** The argument [request] builds for [fetch]; [body'] is the body after
    the [if (body)] statement. *)
Definition requestInit (args : RequestArgs) (body' : option (list Z)) : FetchInit :=
  {| f_url := a_url args;
     f_method := default "GET" (a_method args);
     f_headers := default ∅ (a_headers args);
     f_body := body' |}.

(** The network call and what follows it. *)
Definition request_fetch (fetch : FetchInit -> Result Response) (args : RequestArgs)
  (body' : option (list Z)) (tr : list Event) : Result RequestResult * list Event :=
  (bind (fetch (requestInit args body')) (request_respond (default "GET" (a_method args))),
   tr ++ [EvFetch (requestInit args body')]).

(** [request]: [fetch] is the platform's network primitive. *)
Definition request (fuel : nat) (fetch : FetchInit -> Result Response)
  (args : RequestArgs) (tr : list Event)
  : option (Result RequestResult * list Event) :=
  match a_body args with
  | None => Some (request_fetch fetch args None tr)
  | Some b =>
      match collect fuel b tr with
      | None => None
      | Some (Throw e, _, tr') => Some (Throw e, tr')
      | Some (Ok buf, _, tr') => Some (request_fetch fetch args (Some buf) tr')
      end
  end.

(** ** [src/dn-fs.ts]: values *)

(** A JavaScript number as the shim meets it: an integer, an infinity or
    [NaN]. *)
Inductive Number : Type :=
| Finite (z : Z)
| Infinity (negative : bool)
| NaN.

(** A [Date], or what stands in for one when the platform has none. *)
Inductive JsDate : Type :=
| DateUndefined
| DateNull
| DateAt (ms : Z).

(** [Deno.FileInfo], the fields the shim and its callers read. *)
Record FileInfo : Type := mkFileInfo {
  isFile : bool;
  isDirectory : bool;
  isSymlink : bool;
  size : Z;
  mtime : JsDate;
  atime : JsDate;
  birthtime : JsDate;
  ctime : JsDate
}.

(** [NodeFileInfo]: the platform's record with the millisecond fields;
    [None] is a property that was never assigned. *)
Record NodeFileInfo : Type := mkNodeFileInfo {
  info : FileInfo;
  atimeMs : option Number;
  mtimeMs : option Number;
  ctimeMs : option Number;
  birthtimeMs : option Number
}.

Record DirEntry : Type := mkDirEntry {
  de_name : string;
  de_isFile : bool;
  de_isDirectory : bool;
  de_isSymlink : bool
}.

(** File content as a program holds it: a string (the list of its code
    points; a lone surrogate is a code point in D800..DFFF) or binary data
    (the list of its bytes). *)
Inductive Data : Type :=
| DString (s : list Z)
| DBuffer (b : list Z).

(** What the operations resolve to. [REntries] is the platform's directory
    iterable, given by what iterating it yields: the entries, or the
    rejection that the iteration meets. *)
Inductive OpValue : Type :=
| RUndefined
| RData (d : Data)
| RNames (names : list string)
| REntries (entries : Result (list DirEntry))
| RInfo (i : FileInfo)
| RNodeInfo (i : NodeFileInfo)
| RLink (target : string).

(** What a callback is called with: [cb(null, result)] is
    [{| c_err := None; c_result := Some result |}], [cb(err)] is
    [{| c_err := Some err; c_result := None |}]. *)
Record Call : Type := mkCall {
  c_err : option NodeError;
  c_result : option OpValue
}.

(** A function value used as a callback: its identity, and what running it
    does ([Some e]: it throws [e]). *)
Record Callback : Type := mkCallback {
  cb_id : nat;
  cb_run : Call -> option NodeError
}.

(** The value of a property of an options object. *)
Inductive Field : Type :=
| FUndefined
| FNull
| FBool (b : bool)
| FNum (n : Number)
| FStr (s : string)
| FFun (f : Callback).

(** An argument in an options or callback position: as the parameter types
    have it, an options object, a function, or nothing ([undefined], [null]). *)
Inductive Arg : Type :=
| AUndefined
| ANull
| AFun (f : Callback)
| AObj (o : gmap string Field).

(** [ToBoolean] of a property value and of an argument. *)
Definition fieldTruthy (f : Field) : bool :=
  match f with
  | FUndefined | FNull => false
  | FBool b => b
  | FNum (Finite z) => negb (Z.eqb z 0)
  | FNum (Infinity _) => true
  | FNum NaN => false
  | FStr s => negb (String.eqb s "")
  | FFun _ => true
  end.

Definition argTruthy (a : Arg) : bool :=
  match a with
  | AUndefined | ANull => false
  | AFun _ | AObj _ => true
  end.

(** [typeof a === "function"]. *)
Definition isFunction (a : Arg) : bool :=
  match a with
  | AFun _ => true
  | _ => false
  end.

(** [{ ...a }]: the own properties of an object; nothing for [undefined],
    [null] and a function. *)
Definition spread (a : Arg) : gmap string Field :=
  match a with
  | AObj o => o
  | _ => ∅
  end.

(** [{ ...defaults, ...options }]: the later spread wins. *)
Definition merge (defaults options : Arg) : gmap string Field :=
  spread options ∪ spread defaults.

(** [options?.key]. *)
Definition optProp (options : Arg) (key : string) : Field :=
  match options with
  | AObj o => default FUndefined (o !! key)
  | _ => FUndefined
  end.

(** [options.key]: a [TypeError] on [undefined] and [null]. *)
Definition prop (options : Arg) (key : string) : Result Field :=
  match options with
  | AObj o => Ok (default FUndefined (o !! key))
  | AFun _ => Ok FUndefined
  | AUndefined =>
      Throw (plainError "TypeError"
               ("Cannot read properties of undefined (reading '" +:+ key +:+ "')"))
  | ANull =>
      Throw (plainError "TypeError"
               ("Cannot read properties of null (reading '" +:+ key +:+ "')"))
  end.

(** [f === "utf8"]. *)
Definition isUtf8 (f : Field) : bool :=
  match f with
  | FStr s => String.eqb s "utf8"
  | _ => false
  end.

(** A parameter with a default value: the default replaces [undefined] only. *)
Definition orDefault (a : Arg) (dflt : gmap string Field) : Arg :=
  match a with
  | AUndefined => AObj dflt
  | _ => a
  end.

(** *** [resolve] *)

Record Resolved : Type := mkResolved {
  r_options : Arg;
  r_cb : Arg
}.

(** [resolve(defaults, options, cb)]. The merged options are an object;
    with a function in the options position they are [defaults] itself. *)
Definition resolve (defaults options cb : Arg) : Result Resolved :=
  let _options := if isFunction options then defaults else AObj (merge defaults options) in
  let cb' := if isFunction cb then cb else options in
  if negb (argTruthy cb')
  then Throw (plainError "Error" "Callback function not defined")
  else Ok {| r_options := _options; r_cb := cb' |}.


(** ** [src/dn-fs.ts]: error translation *)

(** [s.includes(pat)]: what matching a regular expression that is a plain
    text amounts to. *)
Fixpoint includes (pat s : string) : bool :=
  if String.prefix pat s then true
  else match s with
       | EmptyString => false
       | String _ rest => includes pat rest
       end.

(** [/(cannot find the (file|path) specified)|(No such file or directory)/]. *)
Definition matchesNotFound (msg : string) : bool :=
  includes "cannot find the file specified" msg
  || includes "cannot find the path specified" msg
  || includes "No such file or directory" msg.

(** [/(Cannot create a file when that file already exists)|(File exists)/]. *)
Definition matchesExists (msg : string) : bool :=
  includes "Cannot create a file when that file already exists" msg
  || includes "File exists" msg.

(** [/Cannot create a file when that file already exists/]. *)
Definition matchesCannotCreate (msg : string) : bool :=
  includes "Cannot create a file when that file already exists" msg.

(** The error the [catch] blocks build: [code] with its text, then the word
    [sc], which is also the [syscall] field. *)
Definition nodeError (cd text sc path : string) : NodeError :=
  {| name := "Error";
     message := cd +:+ ": " +:+ text +:+ ", " +:+ sc +:+ " '" +:+ path +:+ "'";
     code := Some cd;
     syscall := Some sc |}.

Definition enoent (sc path : string) : NodeError :=
  nodeError "ENOENT" "no such file or directory" sc path.

Definition eexist (sc path : string) : NodeError :=
  nodeError "EEXIST" "file already exists" sc path.

(** The [catch] block shared by [readFile], [unlink], [readdir], [rmdir],
    [stat], [lstat] and [readlink], which differ in the word [sc] only. *)
Definition catchNotFound {A : Type} (sc path : string) (r : Result A) : Result A :=
  match r with
  | Ok a => Ok a
  | Throw err =>
      if matchesNotFound (message err) then Throw (enoent sc path) else Throw err
  end.

(** The [catch] block of [writeFile]. *)
Definition catchWrite {A : Type} (path : string) (r : Result A) : Result A :=
  match r with
  | Ok a => Ok a
  | Throw err =>
      if matchesCannotCreate (message err) then Throw (eexist "write" path) else Throw err
  end.

(** The [catch] block of [mkdir]. *)
Definition catchMkdir {A : Type} (path : string) (r : Result A) : Result A :=
  match r with
  | Ok a => Ok a
  | Throw err =>
      if matchesExists (message err) then Throw (eexist "mkdir" path)
      else if matchesNotFound (message err) then Throw (enoent "open" path)
      else Throw err
  end.

(** ** [parseInt] *)

Definition isWhiteSpace (c : ascii) : bool :=
  let n := nat_of_ascii c in
  (Nat.leb 9 n && Nat.leb n 13) || Nat.eqb n 32.

Fixpoint trimStart (s : string) : string :=
  match s with
  | EmptyString => EmptyString
  | String c rest => if isWhiteSpace c then trimStart rest else s
  end.

(** The value of a character as a digit, up to radix 36. *)
Definition digitValue (c : ascii) : option Z :=
  let n := Z.of_nat (nat_of_ascii c) in
  if (48 <=? n) && (n <=? 57) then Some (n - 48)
  else if (97 <=? n) && (n <=? 122) then Some (n - 87)
  else if (65 <=? n) && (n <=? 90) then Some (n - 55)
  else None.

(** The longest prefix of digits of the radix; [None] when it is empty. *)
Fixpoint parseDigits (radix : Z) (s : string) (acc : option Z) : option Z :=
  match s with
  | EmptyString => acc
  | String c rest =>
      match digitValue c with
      | Some d =>
          if d <? radix then parseDigits radix rest (Some (default 0 acc * radix + d))
          else acc
      | None => acc
      end
  end.

(** The number nearest to an integer: the integer itself below 2^53, and
    above it the integer rounded to 53 significant bits, a tie going to the
    even neighbour, or an infinity from 2^1024 on. *)
Definition toNumber (n : Z) : Number :=
  let a := Z.abs n in
  if a <? 9007199254740992 then Finite n
  else
    let e := Z.log2 a - 52 in
    let q := Z.shiftr a e in
    let r := Z.land a (Z.ones e) in
    let half := Z.shiftl 1 (e - 1) in
    let q' := if (r <? half) || ((r =? half) && Z.even q) then q else q + 1 in
    if 1024 <=? Z.log2 (Z.shiftl q' e) then Infinity (n <? 0)
    else Finite (Z.sgn n * Z.shiftl q' e).

(** [parseInt(s)] without a radix: leading white space, a sign, radix 16
    after [0x] and 10 otherwise, then the digits; the integer they denote
    is converted to a number. *)
Definition parseInt (s : string) : Number :=
  let s1 := trimStart s in
  let '(sign, s2) :=
    match s1 with
    | String "-" rest => (-1, rest)
    | String "+" rest => (1, rest)
    | _ => (1, s1)
    end in
  let '(radix, s3) :=
    match s2 with
    | String "0" (String "x" rest) => (16, rest)
    | String "0" (String "X" rest) => (16, rest)
    | _ => (10, s2)
    end in
  match parseDigits radix s3 None with
  | Some n => toNumber (sign * n)
  | None => NaN
  end.

(** ** [TextEncoder] and [TextDecoder] (UTF-8) *)

Definition isSurrogate (cp : Z) : bool := (0xD800 <=? cp) && (cp <=? 0xDFFF).

(** A continuation byte for the six bits of [x] above bit [6 * k]. *)
Definition contByte (x k : Z) : Z :=
  Z.lor 0x80 (Z.land (Z.shiftr x (6 * k)) 0x3F).

(** The UTF-8 encoding of one scalar value. *)
Definition encodeScalar (cp : Z) : list Z :=
  if cp <=? 0x7F then [cp]
  else if cp <=? 0x7FF then [Z.shiftr cp 6 + 0xC0; contByte cp 0]
  else if cp <=? 0xFFFF then [Z.shiftr cp 12 + 0xE0; contByte cp 1; contByte cp 0]
  else [Z.shiftr cp 18 + 0xF0; contByte cp 2; contByte cp 1; contByte cp 0].

(** [new TextEncoder().encode(s)], and what [Deno.writeTextFile] stores: a
    lone surrogate is encoded as U+FFFD. *)
Definition TextEncoder_encode (s : list Z) : list Z :=
  List.flat_map (fun cp => encodeScalar (if isSurrogate cp then 0xFFFD else cp)) s.

Definition isCont (lo hi b : Z) : bool := (lo <=? b) && (b <=? hi).

(** A code point under construction, with six more bits. *)
Definition addBits (acc b : Z) : Z := Z.lor (Z.shiftl acc 6) (Z.land b 0x3F).

(** The UTF-8 decoder: an ill-formed sequence becomes U+FFFD, and the byte
    that broke it is read again. *)
Fixpoint decodeBytes (bs : list Z) : list Z :=
  match bs with
  | [] => []
  | b0 :: r0 =>
      if b0 <=? 0x7F then b0 :: decodeBytes r0
      else if isCont 0xC2 0xDF b0 then
        match r0 with
        | [] => [0xFFFD]
        | b1 :: r1 =>
            if isCont 0x80 0xBF b1
            then addBits (Z.land b0 0x1F) b1 :: decodeBytes r1
            else 0xFFFD :: decodeBytes r0
        end
      else if isCont 0xE0 0xEF b0 then
        match r0 with
        | [] => [0xFFFD]
        | b1 :: r1 =>
            if isCont (if b0 =? 0xE0 then 0xA0 else 0x80) (if b0 =? 0xED then 0x9F else 0xBF) b1
            then match r1 with
                 | [] => [0xFFFD]
                 | b2 :: r2 =>
                     if isCont 0x80 0xBF b2
                     then addBits (addBits (Z.land b0 0xF) b1) b2 :: decodeBytes r2
                     else 0xFFFD :: decodeBytes r1
                 end
            else 0xFFFD :: decodeBytes r0
        end
      else if isCont 0xF0 0xF4 b0 then
        match r0 with
        | [] => [0xFFFD]
        | b1 :: r1 =>
            if isCont (if b0 =? 0xF0 then 0x90 else 0x80) (if b0 =? 0xF4 then 0x8F else 0xBF) b1
            then match r1 with
                 | [] => [0xFFFD]
                 | b2 :: r2 =>
                     if isCont 0x80 0xBF b2
                     then match r2 with
                          | [] => [0xFFFD]
                          | b3 :: r3 =>
                              if isCont 0x80 0xBF b3
                              then addBits (addBits (addBits (Z.land b0 0x7) b1) b2) b3
                                     :: decodeBytes r3
                              else 0xFFFD :: decodeBytes r2
                          end
                     else 0xFFFD :: decodeBytes r1
                 end
            else 0xFFFD :: decodeBytes r0
        end
      else 0xFFFD :: decodeBytes r0
  end.

(** [new TextDecoder().decode(b)]: a leading byte order mark is dropped. *)
Definition TextDecoder_decode (b : list Z) : list Z :=
  match b with
  | b0 :: b1 :: b2 :: rest =>
      if (b0 =? 0xEF) && (b1 =? 0xBB) && (b2 =? 0xBF) then decodeBytes rest
      else decodeBytes b
  | _ => decodeBytes b
  end.

(** A string a round trip through UTF-8 preserves: scalar values only, and
    no byte order mark at the start. *)
Definition isScalar (cp : Z) : bool :=
  (0 <=? cp) && (cp <=? 0x10FFFF) && negb (isSurrogate cp).

Definition wellFormed (s : list Z) : bool :=
  List.forallb isScalar s
  && match s with
     | cp :: _ => negb (cp =? 0xFEFF)
     | [] => true
     end.

(** An element of a [Uint8Array]. *)
Definition isByte (b : Z) : bool := (0 <=? b) && (b <=? 255).

(** ** The platform *)

(** The [Deno] functions the shim calls, over a world [W] they act on.
    [Deno_remove] and [Deno_mkdir] receive the option values as the shim
    passes them; [Deno_symlink oldpath newpath type], as the platform
    documents it, creates [newpath] as a link to [oldpath]. *)
Record Deno (W : Type) : Type := mkDeno {
  Deno_readFile : string -> W -> Result (list Z) * W;
  Deno_readTextFile : string -> W -> Result (list Z) * W;
  Deno_writeFile : string -> list Z -> W -> Result unit * W;
  Deno_writeTextFile : string -> list Z -> W -> Result unit * W;
  Deno_remove : string -> Field -> W -> Result unit * W;
  Deno_readDir : string -> W -> Result (list DirEntry) * W;
  Deno_mkdir : string -> Field -> Field -> W -> Result unit * W;
  Deno_stat : string -> W -> Result FileInfo * W;
  Deno_lstat : string -> W -> Result FileInfo * W;
  Deno_readLink : string -> W -> Result string * W;
  Deno_symlink : string -> string -> option Field -> W -> Result unit * W;
  Deno_chmod : string -> Z -> W -> Result unit * W
}.
Arguments Deno_readFile {W} d.
Arguments Deno_readTextFile {W} d.
Arguments Deno_writeFile {W} d.
Arguments Deno_writeTextFile {W} d.
Arguments Deno_remove {W} d.
Arguments Deno_readDir {W} d.
Arguments Deno_mkdir {W} d.
Arguments Deno_stat {W} d.
Arguments Deno_lstat {W} d.
Arguments Deno_readLink {W} d.
Arguments Deno_symlink {W} d.
Arguments Deno_chmod {W} d.

(** What an awaited platform call resolved to, wrapped as the operation's
    value. *)
Definition resolved {A W : Type} (wrap : A -> OpValue) (rw : Result A * W)
  : Result OpValue * W :=
  (bind (fst rw) (fun a => Ok (wrap a)), snd rw).

(** ** [lstat]'s millisecond fields *)

(** [new Date(d).getTime()]. *)
Definition getTime (d : JsDate) : Number :=
  match d with
  | DateAt ms => Finite ms
  | DateNull => Finite 0
  | DateUndefined => NaN
  end.

(** [if (d)]: a [Date] is an object, hence truthy. *)
Definition datePresent (d : JsDate) : bool :=
  match d with
  | DateAt _ => true
  | _ => false
  end.

(** [a ?? b]. *)
Definition nullish (a b : JsDate) : JsDate :=
  match a with
  | DateAt _ => a
  | _ => b
  end.

Definition setCtime (i : FileInfo) (c : JsDate) : FileInfo :=
  {| isFile := isFile i; isDirectory := isDirectory i; isSymlink := isSymlink i;
     size := size i; mtime := mtime i; atime := atime i; birthtime := birthtime i;
     ctime := c |}.

(** The body of [lstat]'s [try] block after the platform call. *)
Definition lstatFields (result : FileInfo) : NodeFileInfo :=
  let ctime' := nullish (ctime result) (birthtime result) in
  {| info := setCtime result ctime';
     atimeMs := if datePresent (atime result) then Some (getTime (atime result)) else None;
     mtimeMs := if datePresent (mtime result) then Some (getTime (mtime result)) else None;
     birthtimeMs :=
       if datePresent (birthtime result) then Some (getTime (birthtime result)) else None;
     ctimeMs := Some (getTime ctime') |}.

(** ** The promise form: [fs.promises] *)

(** Octal literals: [0o666] is 438 and [0o777] is 511. *)
Definition writeDefaults : gmap string Field :=
  {[ "encoding" := FStr "utf8"; "mode" := FNum (Finite 438); "flag" := FStr "w" ]}.

Definition readdirDefaults : gmap string Field :=
  {[ "encoding" := FStr "utf8"; "withFileTypes" := FBool false ]}.

Definition mkdirDefaults : gmap string Field :=
  {[ "recursive" := FBool false; "mode" := FNum (Finite 511) ]}.

Definition rmdirDefaults : gmap string Field :=
  {[ "recursive" := FBool false ]}.

Section Promises.

Context {W : Type}.
Variable deno : Deno W.

Definition readFile (path : string) (options : Arg) (w : W) : Result OpValue * W :=
  let rw :=
    if isUtf8 (optProp options "encoding")
    then resolved (fun s => RData (DString s)) (Deno_readTextFile deno path w)
    else resolved (fun b => RData (DBuffer b)) (Deno_readFile deno path w) in
  (catchNotFound "open" path (fst rw), snd rw).

Definition writeFile (path : string) (data : Data) (options : Arg) (w : W)
  : Result OpValue * W :=
  let options := orDefault options writeDefaults in
  let rw :=
    match prop options "encoding" with
    | Throw e => (Throw e, w)
    | Ok encoding =>
        resolved (fun _ => RUndefined)
          match data with
          | DString s =>
              if isUtf8 encoding
              then Deno_writeTextFile deno path s w
              else Deno_writeFile deno path (TextEncoder_encode s) w
          | DBuffer b =>
              if isUtf8 encoding
              then Deno_writeTextFile deno path (TextDecoder_decode b) w
              else Deno_writeFile deno path b w
          end
    end in
  (catchWrite path (fst rw), snd rw).

Definition unlink (path : string) (w : W) : Result OpValue * W :=
  let rw := resolved (fun _ => RUndefined) (Deno_remove deno path (FBool false) w) in
  (catchNotFound "open" path (fst rw), snd rw).

(** With [withFileTypes] the platform's iterable is returned as it is: it
    is not iterated inside the [try] block, and its errors are not
    translated. *)
Definition readdir (path : string) (options : Arg) (w : W) : Result OpValue * W :=
  let options := orDefault options readdirDefaults in
  let rw :=
    match prop options "withFileTypes" with
    | Throw e => (Throw e, w)
    | Ok withFileTypes =>
        if fieldTruthy withFileTypes
        then (Ok (REntries (fst (Deno_readDir deno path w))), w)
        else resolved (fun entries => RNames (List.map de_name entries))
               (Deno_readDir deno path w)
    end in
  (catchNotFound "open" path (fst rw), snd rw).

(** [typeof mode === "string" ? parseInt(mode) : mode]. *)
Definition mkdirMode (mode : Field) : Field :=
  match mode with
  | FStr s => FNum (parseInt s)
  | _ => mode
  end.

Definition mkdir (path : string) (options : Arg) (w : W) : Result OpValue * W :=
  let options := orDefault options mkdirDefaults in
  let merged := spread options ∪ mkdirDefaults in
  let recursive := default FUndefined (merged !! "recursive") in
  let mode := default FUndefined (merged !! "mode") in
  let rw := resolved (fun _ => RUndefined)
              (Deno_mkdir deno path recursive (mkdirMode mode) w) in
  (catchMkdir path (fst rw), snd rw).

Definition rmdir (path : string) (options : Arg) (w : W) : Result OpValue * W :=
  let options := orDefault options rmdirDefaults in
  let rw :=
    match prop options "recursive" with
    | Throw e => (Throw e, w)
    | Ok recursive => resolved (fun _ => RUndefined) (Deno_remove deno path recursive w)
    end in
  (catchNotFound "open" path (fst rw), snd rw).

Definition stat (path : string) (_options : Arg) (w : W) : Result OpValue * W :=
  let rw := resolved RInfo (Deno_stat deno path w) in
  (catchNotFound "stat" path (fst rw), snd rw).

Definition lstat (path : string) (w : W) : Result OpValue * W :=
  let rw := resolved (fun result => RNodeInfo (lstatFields result)) (Deno_lstat deno path w) in
  (catchNotFound "open" path (fst rw), snd rw).

Definition readlink (path : string) (_options : Arg) (w : W) : Result OpValue * W :=
  let rw := resolved RLink (Deno_readLink deno path w) in
  (catchNotFound "open" path (fst rw), snd rw).

(** [type] is the third parameter, with its default ["file"]. *)
Definition symlink (target path : string) (type : Field) (w : W) : Result OpValue * W :=
  let type := match type with FUndefined => FStr "file" | _ => type end in
  let oldPath := path in
  let newPath := target in
  if fieldTruthy type
  then resolved (fun _ => RUndefined) (Deno_symlink deno oldPath newPath (Some type) w)
  else resolved (fun _ => RUndefined) (Deno_symlink deno oldPath newPath None w).

Definition chmod (path : string) (mode : Z) (w : W) : Result OpValue * W :=
  resolved (fun _ => RUndefined) (Deno_chmod deno path mode w).

(** ** The callback form *)

(** Calling [cb(...)]: the call is logged with the callback's identity;
    calling what is not a function throws a [TypeError] that names the
    expression called, [callee]. *)
Definition invoke (callee : string) (cb : Arg) (c : Call) (log : list (nat * Call))
  : Result unit * list (nat * Call) :=
  match cb with
  | AFun f =>
      (match cb_run f c with
       | None => Ok tt
       | Some e => Throw e
       end, log ++ [(cb_id f, c)])
  | _ => (Throw (plainError "TypeError" (callee +:+ " is not a function")), log)
  end.

(** [p.then((result) => cb(null, result)).catch((err) => cb(err))] for a
    promise settled as [r]: what the chain settles to, and the calls made.
    [catch] also receives what the [then] handler threw. *)
Definition thenCatch (callee : string) (cb : Arg) (r : Result OpValue)
  (log : list (nat * Call)) : Result unit * list (nat * Call) :=
  match r with
  | Ok v =>
      match invoke callee cb {| c_err := None; c_result := Some v |} log with
      | (Ok u, log') => (Ok u, log')
      | (Throw e, log') => invoke callee cb {| c_err := Some e; c_result := None |} log'
      end
  | Throw e => invoke callee cb {| c_err := Some e; c_result := None |} log
  end.

(** What a call in the callback form did: the error it threw synchronously,
    the rejection nobody handled, the calls of callbacks, the world. *)
Record Outcome : Type := mkOutcome {
  thrown : option NodeError;
  unhandled : option NodeError;
  calls : list (nat * Call);
  world : W
}.

(** The chain on the promise form's result, for a callback held as
    [callee]. *)
Definition chain (callee : string) (cb : Arg) (rw : Result OpValue * W) : Outcome :=
  let ul := thenCatch callee cb (fst rw) [] in
  {| thrown := None;
     unhandled := match fst ul with Ok _ => None | Throw e => Some e end;
     calls := snd ul;
     world := snd rw |}.

(** The body shared by the callback forms that call [resolve]: a throw of
    [resolve] leaves the function at once; otherwise the promise form runs
    on the resolved options and the chain calls the resolved callback. *)
Definition viaCallback (res : Result Resolved) (op : Arg -> W -> Result OpValue * W)
  (w : W) : Outcome :=
  match res with
  | Throw e => {| thrown := Some e; unhandled := None; calls := []; world := w |}
  | Ok rs => chain "resolved.cb" (r_cb rs) (op (r_options rs) w)
  end.

Definition fs_readFile (path : string) (options cb : Arg) (w : W) : Outcome :=
  viaCallback (resolve (AObj {[ "encoding" := FStr "utf8" ]}) options cb)
    (readFile path) w.

Definition fs_writeFile (path : string) (data : Data) (options cb : Arg) (w : W) : Outcome :=
  viaCallback (resolve (AObj writeDefaults) options cb) (writeFile path data) w.

Definition fs_unlink (path : string) (cb : Arg) (w : W) : Outcome :=
  viaCallback (resolve ANull ANull cb) (fun _ => unlink path) w.

Definition fs_readdir (path : string) (options cb : Arg) (w : W) : Outcome :=
  viaCallback (resolve (AObj readdirDefaults) options cb) (readdir path) w.

Definition fs_mkdir (path : string) (options cb : Arg) (w : W) : Outcome :=
  viaCallback (resolve (AObj mkdirDefaults) options cb) (mkdir path) w.

Definition fs_rmdir (path : string) (options cb : Arg) (w : W) : Outcome :=
  viaCallback (resolve (AObj rmdirDefaults) options cb) (rmdir path) w.

Definition fs_stat (path : string) (options cb : Arg) (w : W) : Outcome :=
  viaCallback (resolve (AObj {[ "bigint" := FBool false ]}) options cb) (stat path) w.

Definition fs_lstat (path : string) (cb : Arg) (w : W) : Outcome :=
  viaCallback (resolve ANull ANull cb) (fun _ => lstat path) w.

Definition fs_readlink (path : string) (options cb : Arg) (w : W) : Outcome :=
  viaCallback (resolve (AObj {[ "encoding" := FStr "utf8" ]}) options cb)
    (readlink path) w.

(** The third argument is wrapped as [{ type }] before [resolve] sees it. *)
Definition fs_symlink (target path : string) (type : Field) (cb : Arg) (w : W) : Outcome :=
  viaCallback (resolve (AObj {[ "type" := FStr "file" ]}) (AObj {[ "type" := type ]}) cb)
    (fun options => symlink target path (optProp options "type")) w.

(** [chmod] does not go through [resolve]. *)
Definition fs_chmod (path : string) (mode : Z) (cb : Arg) (w : W) : Outcome :=
  chain "cb" cb (chmod path mode w).

End Promises.

(** ** An in-memory platform *)

(** A platform to run the shim on: a flat store from path to entry, with the
    error messages of Deno on Linux. Parent directories are not tracked, and
    a link's target is looked up as it is written. Every entry reports the
    timestamps [stamp]. *)
Inductive Node : Type :=
| NFile (content : list Z) (mode : Z)
| NDir (mode : Number)
| NLink (target : string).

Record MemFS : Type := mkMemFS {
  nodes : gmap string Node;
  stamp : FileInfo
}.

Definition osError (nm msg : string) : NodeError := plainError nm msg.

Definition notFound : NodeError :=
  osError "NotFound" "No such file or directory (os error 2)".

Definition alreadyExists : NodeError :=
  osError "AlreadyExists" "File exists (os error 17)".

Definition withNodes (w : MemFS) (n : gmap string Node) : MemFS :=
  {| nodes := n; stamp := stamp w |}.

(** The entry a path leads to, through at most [fuel] links. *)
Fixpoint follow (fuel : nat) (n : gmap string Node) (path : string)
  : Result (string * option Node) :=
  match n !! path with
  | Some (NLink target) =>
      match fuel with
      | O => Throw (osError "FilesystemLoop" "Too many levels of symbolic links (os error 40)")
      | S fuel' => follow fuel' n target
      end
  | other => Ok (path, other)
  end.

Definition nodeInfo (w : MemFS) (nd : Node) : FileInfo :=
  {| isFile := match nd with NFile _ _ => true | _ => false end;
     isDirectory := match nd with NDir _ => true | _ => false end;
     isSymlink := match nd with NLink _ => true | _ => false end;
     size := match nd with NFile c _ => Z.of_nat (List.length c) | _ => 0 end;
     mtime := mtime (stamp w); atime := atime (stamp w);
     birthtime := birthtime (stamp w); ctime := ctime (stamp w) |}.

Definition mem_readFile (path : string) (w : MemFS) : Result (list Z) * MemFS :=
  (bind (follow 40 (nodes w) path) (fun pn =>
     match snd pn with
     | Some (NFile c _) => Ok c
     | Some _ => Throw (osError "Error" "Is a directory (os error 21)")
     | None => Throw notFound
     end), w).

Definition mem_writeFile (path : string) (b : list Z) (w : MemFS) : Result unit * MemFS :=
  match follow 40 (nodes w) path with
  | Throw e => (Throw e, w)
  | Ok (p, Some (NDir _)) => (Throw (osError "Error" "Is a directory (os error 21)"), w)
  | Ok (p, Some (NFile _ m)) => (Ok tt, withNodes w (<[p := NFile b m]> (nodes w)))
  | Ok (p, _) => (Ok tt, withNodes w (<[p := NFile b 438]> (nodes w)))
  end.

(** [path] lies below the directory [dir]. *)
Definition below (dir path : string) : bool := String.prefix (dir +:+ "/") path.

(** The entries of the store below [dir]. *)
Definition childrenOf (dir : string) (n : gmap string Node) : gmap string Node :=
  filter (fun kv : string * Node => below dir (fst kv) = true) n.

Definition mem_remove (path : string) (recursive : Field) (w : MemFS) : Result unit * MemFS :=
  match nodes w !! path with
  | None => (Throw notFound, w)
  | Some _ =>
      let children := childrenOf path (nodes w) in
      if fieldTruthy recursive
      then (Ok tt, withNodes w (delete path (nodes w) ∖ children))
      else match map_to_list children with
           | [] => (Ok tt, withNodes w (delete path (nodes w)))
           | _ => (Throw (osError "Error" "Directory not empty (os error 39)"), w)
           end
  end.

Definition mem_mkdir (path : string) (recursive mode : Field) (w : MemFS)
  : Result unit * MemFS :=
  match mode with
  | FNum (Finite _) | FUndefined =>
      let m := match mode with FNum n => n | _ => Finite 511 end in
      match nodes w !! path with
      | None => (Ok tt, withNodes w (<[path := NDir m]> (nodes w)))
      | Some (NDir _) =>
          if fieldTruthy recursive then (Ok tt, w) else (Throw alreadyExists, w)
      | Some _ => (Throw alreadyExists, w)
      end
  | _ => (Throw (osError "TypeError" "invalid type for mode"), w)
  end.

Definition mem_stat (path : string) (w : MemFS) : Result FileInfo * MemFS :=
  (bind (follow 40 (nodes w) path) (fun pn =>
     match snd pn with
     | Some nd => Ok (nodeInfo w nd)
     | None => Throw notFound
     end), w).

Definition mem_lstat (path : string) (w : MemFS) : Result FileInfo * MemFS :=
  (match nodes w !! path with
   | Some nd => Ok (nodeInfo w nd)
   | None => Throw notFound
   end, w).

Definition mem_readLink (path : string) (w : MemFS) : Result string * MemFS :=
  (match nodes w !! path with
   | Some (NLink target) => Ok target
   | Some _ => Throw (osError "TypeError" "Invalid argument (os error 22)")
   | None => Throw notFound
   end, w).

(** [Deno.symlink(oldpath, newpath)]: [newpath] becomes a link to [oldpath]. *)
Definition mem_symlink (oldpath newpath : string) (type : option Field) (w : MemFS)
  : Result unit * MemFS :=
  match nodes w !! newpath with
  | Some _ => (Throw alreadyExists, w)
  | None => (Ok tt, withNodes w (<[newpath := NLink oldpath]> (nodes w)))
  end.

Definition mem_chmod (path : string) (mode : Z) (w : MemFS) : Result unit * MemFS :=
  match follow 40 (nodes w) path with
  | Throw e => (Throw e, w)
  | Ok (p, Some (NFile c _)) => (Ok tt, withNodes w (<[p := NFile c mode]> (nodes w)))
  | Ok (p, Some (NDir _)) => (Ok tt, withNodes w (<[p := NDir (Finite mode)]> (nodes w)))
  | Ok (p, _) => (Throw notFound, w)
  end.

(** The name of [path] inside [dir]. *)
Definition nameIn (dir path : string) : string :=
  String.substring (S (String.length dir)) (String.length path) path.

Definition mem_readDir (path : string) (w : MemFS) : Result (list DirEntry) * MemFS :=
  (bind (follow 40 (nodes w) path) (fun pn =>
     match snd pn with
     | Some (NDir _) =>
         Ok (List.map (fun kv =>
                {| de_name := nameIn (fst pn) (fst kv);
                   de_isFile := match snd kv with NFile _ _ => true | _ => false end;
                   de_isDirectory := match snd kv with NDir _ => true | _ => false end;
                   de_isSymlink := match snd kv with NLink _ => true | _ => false end |})
               (List.filter (fun kv => negb (includes "/" (nameIn (fst pn) (fst kv))))
                  (map_to_list (childrenOf (fst pn) (nodes w)))))
     | Some _ => Throw (osError "Error" "Not a directory (os error 20)")
     | None => Throw notFound
     end), w).

(** [Deno.readTextFile]: the bytes decoded as UTF-8. Unlike [TextDecoder],
    the platform keeps a byte order mark at the start of the file. *)
Definition resolvedText (rw : Result (list Z) * MemFS) : Result (list Z) * MemFS :=
  (bind (fst rw) (fun b => Ok (decodeBytes b)), snd rw).

Definition memDeno : Deno MemFS :=
  {| Deno_readFile := mem_readFile;
     Deno_readTextFile := fun path w => resolvedText (mem_readFile path w);
     Deno_writeFile := mem_writeFile;
     Deno_writeTextFile := fun path s w => mem_writeFile path (TextEncoder_encode s) w;
     Deno_remove := mem_remove;
     Deno_readDir := mem_readDir;
     Deno_mkdir := mem_mkdir;
     Deno_stat := mem_stat;
     Deno_lstat := mem_lstat;
     Deno_readLink := mem_readLink;
     Deno_symlink := mem_symlink;
     Deno_chmod := mem_chmod |}.

(** An empty store on a Linux file system that reports no creation time
    and no separate change time. *)
Definition linuxStamp : FileInfo :=
  {| isFile := false; isDirectory := false; isSymlink := false; size := 0;
     mtime := DateAt 1700000000000; atime := DateAt 1700000000500;
     birthtime := DateNull; ctime := DateUndefined |}.

Definition emptyFS : MemFS := {| nodes := ∅; stamp := linuxStamp |}.

(** ** Content, for the round trip *)

(** The bytes a value stands for as file content: a string stands for its
    UTF-8 encoding. *)
Definition contentBytes (d : Data) : list Z :=
  match d with
  | DString s => TextEncoder_encode s
  | DBuffer b => b
  end.

(** The bytes [writeFile] passes to the platform, by the four branches of
    its [try] block; [text] is [options.encoding === "utf8"]. *)
Definition storedBytes (text : bool) (data : Data) : list Z :=
  match data with
  | DString s => TextEncoder_encode s
  | DBuffer b => if text then TextEncoder_encode (TextDecoder_decode b) else b
  end.

Definition isString (d : Data) : bool :=
  match d with
  | DString _ => true
  | DBuffer _ => false
  end.

(** What the round trip asks of a platform: a file that was written is
    read back as written, [Deno.writeTextFile] stores the UTF-8 encoding of
    the string, and [Deno.readTextFile] of a file that holds the encoding
    of a well-formed string returns that string. Nothing is asked of
    [Deno.readTextFile] on other content: whether it keeps a byte order
    mark, and what it makes of ill-formed bytes, is left to the platform. *)
Record ReadsBackWrites {W : Type} (deno : Deno W) : Prop := mkReadsBackWrites {
  reads_back : forall (path : string) (b : list Z) (w w' : W),
    Deno_writeFile deno path b w = (Ok tt, w') ->
    fst (Deno_readFile deno path w') = Ok b;
  writes_text : forall (path : string) (s : list Z) (w : W),
    Deno_writeTextFile deno path s w = Deno_writeFile deno path (TextEncoder_encode s) w;
  reads_text : forall (path : string) (s : list Z) (w : W),
    wellFormed s = true ->
    fst (Deno_readFile deno path w) = Ok (TextEncoder_encode s) ->
    fst (Deno_readTextFile deno path w) = Ok s
}.

(** ** Sources used as examples *)

(** A source that plays back a script of results and then reports
    completion for ever; its [return] jumps to the end of the script. *)
Definition scriptedIterator (script : list IterResult) : Iterator :=
  {| state := nat;
     current := 0%nat;
     next := fun i => (Ok (List.nth i script exhausted), S i);
     return_ := Some (fun _ => List.length script) |}.

(** A server that answers every request with status 200 and echoes the
    request body. *)
Definition echoFetch (init : FetchInit) : Result Response :=
  Ok {| res_url := f_url init;
        res_status := 200;
        res_statusText := "OK";
        res_headers := [("content-type", "application/octet-stream")];
        res_body := None;
        res_arrayBuffer := Ok (default [] (f_body init)) |}.

(** Two chunks with a falsy value in between; the second chunk comes in
    the same result as the completion. *)
Definition lateChunkScript : list IterResult :=
  [ {| value := VBytes [1; 2]; done := false |};
    {| value := VNum 0; done := false |};
    {| value := VBytes [3]; done := true |} ].

Definition lateChunkSource : Iterable :=
  asyncIterable (scriptedIterator lateChunkScript).

(** A request that posts [lateChunkSource]. *)
Definition postArgs : RequestArgs :=
  {| a_url := "https://example.org/repo.git/git-upload-pack";
     a_method := Some "POST";
     a_headers := None;
     a_body := Some lateChunkSource |}.

(** A callback that returns normally, and one that throws when it is
    handed a result. *)
Definition quietCallback (id : nat) : Callback :=
  {| cb_id := id; cb_run := fun _ => None |}.

Definition failingCallback (id : nat) : Callback :=
  {| cb_id := id;
     cb_run := fun c =>
       match c_err c with
       | None => Some (plainError "Error" "callback failed")
       | Some _ => None
       end |}.

(** A store that holds the file [a.txt] with the text [hi]. *)
Definition oneFileFS : MemFS :=
  snd (writeFile memDeno "a.txt" (DString [104; 105]) AUndefined emptyFS).

(** A call delivers exactly one of an error and a result. *)
Definition deliversOne (c : Call) : bool :=
  match c_err c, c_result c with
  | Some _, None => true
  | None, Some _ => true
  | _, _ => false
  end.

Definition isFetch (e : Event) : bool :=
  match e with
  | EvFetch _ => true
  | _ => false
  end.

(** ** Finite sources *)

(** [Delivers it s rs s']: from the captured variables [s], the successive
    [next()] calls of [it] resolve to [rs], of which the last is the first
    that reports completion, and leave [s']. *)
Inductive Delivers (it : Iterator) : state it -> list IterResult -> state it -> Prop :=
| delivers_last s r s' :
    next it s = (Ok r, s') -> done r = true -> Delivers it s [r] s'
| delivers_step s r s' rs s'' :
    next it s = (Ok r, s') -> done r = false -> Delivers it s' rs s'' ->
    Delivers it s (r :: rs) s''.

(** The callback applied to a list of values in order, stopping at the
    first throw. *)
Fixpoint foldCb {A : Type} (cb : JsValue -> A -> Result A) (vs : list JsValue) (a : A)
  : Result A :=
  match vs with
  | [] => Ok a
  | v :: rest => bind (cb v a) (foldCb cb rest)
  end.

(** A callback that records the values it is invoked on. *)
Definition recordCall (v : JsValue) (calls : list JsValue) : Result (list JsValue) :=
  Ok (calls ++ [v]).

(** The iterator and the trace [forAwait] leaves after a loop that ended
    by [break] in state [s]. *)
Definition afterReturn (it : Iterator) (s : state it) : Iterator :=
  match return_ it with
  | Some ret => withState it (ret s)
  | None => withState it s
  end.

Definition returnEvents (it : Iterator) : list Event :=
  match return_ it with
  | Some _ => [EvReturn]
  | None => []
  end.

Definition nextEvents (rs : list IterResult) : list Event :=
  List.map (fun r => EvNext (Ok r)) rs.

(** ** Further sources and events *)

(** The values that have none of [Symbol.asyncIterator], [Symbol.iterator]
    and [next], and on which reading a property does not throw: booleans
    and numbers. (A string and a [Uint8Array] have [Symbol.iterator];
    reading a property of [null] or [undefined] throws.) *)
Definition hasNoIterator (v : JsValue) : bool :=
  match v with
  | VBool _ | VNum _ | VNaN => true
  | _ => false
  end.

(** A boolean or a number as a source ([hasNoIterator]): [getIterator]
    finds none of the methods and wraps the value with [fromValue]. *)
Definition plainValue (v : JsValue) : Iterable :=
  {| asyncIterator := None;
     syncIterator := None;
     nextMethod := None;
     self := v |}.

(** The results the array iterator gives for the items of an array. *)
Definition itemResults (items : list JsValue) : list IterResult :=
  List.map (fun v => {| value := v; done := false |}) items ++ [exhausted].

Definition isBytes (v : JsValue) : bool :=
  match v with
  | VBytes _ => true
  | _ => false
  end.

Definition isReturn (e : Event) : bool :=
  match e with
  | EvReturn => true
  | _ => false
  end.

Definition rangeError : NodeError := plainError "RangeError" "offset is out of bounds".





(** A server that answers every request with two cookies and an entity
    tag. *)
Definition cookieFetch (init : FetchInit) : Result Response :=
  Ok {| res_url := f_url init;
        res_status := 200;
        res_statusText := "OK";
        res_headers := [("set-cookie", "a=1"); ("etag", "x"); ("set-cookie", "b=2")];
        res_body := None;
        res_arrayBuffer := Ok [] |}.


(** The call a callback that returns normally receives for a settled
    promise. *)
Definition callFor (r : Result OpValue) : Call :=
  match r with
  | Ok v => {| c_err := None; c_result := Some v |}
  | Throw e => {| c_err := Some e; c_result := None |}
  end.

(* ================================================================== *)
(** * Part II. Properties                                               *)
(* ================================================================== *)

(** ** The iteration utilities *)

Section ForAwait.

Context {A : Type}.
Variable it : Iterator.
Variable cb : JsValue -> A -> Result A.

Lemma foldCb_app (xs ys : list JsValue) (a : A) :
  foldCb cb (xs ++ ys) a = bind (foldCb cb xs a) (foldCb cb ys).
Proof.
  revert a. induction xs as [|x xs IH]; intros a; simpl; [reflexivity|].
  destruct (cb x a); simpl; auto.
Qed.

(** The loop on a finite source: with enough fuel it ends in the source's
    final state, having run the callback on the truthy values in order. *)
Lemma forAwait_loop_delivers (s s' : state it) (rs : list IterResult) :
  Delivers it s rs s' ->
  forall (a a' : A) (tr : list Event) (fuel : nat),
    foldCb cb (List.filter truthy (List.map value rs)) a = Ok a' ->
    (List.length rs <= fuel)%nat ->
    forAwait_loop fuel it cb s a tr = Some (Ok a', s', tr ++ nextEvents rs).
Proof.
  induction 1 as [s r s' Hn Hd | s r s' rs s'' Hn Hd _ IH];
    intros a a' tr fuel Hf Hfuel.
  - destruct fuel as [|fuel]; [simpl in Hfuel; lia|].
    simpl in *. rewrite Hn.
    destruct (truthy (value r)); simpl in Hf.
    + destruct (cb (value r) a); simpl in Hf; [|discriminate].
      injection Hf as ->. rewrite Hd. reflexivity.
    + injection Hf as ->. rewrite Hd. reflexivity.
  - destruct fuel as [|fuel]; [simpl in Hfuel; lia|].
    simpl in Hfuel. cbn [forAwait_loop]. rewrite Hn.
    cbn [List.map List.filter] in Hf.
    destruct (truthy (value r)).
    + cbn [foldCb] in Hf. destruct (cb (value r) a) as [a1|e]; simpl in Hf; [|discriminate].
      rewrite Hd. rewrite (IH a1 a' _ fuel Hf ltac:(lia)).
      unfold nextEvents. simpl. rewrite <- app_assoc. reflexivity.
    + rewrite Hd. rewrite (IH a a' _ fuel Hf ltac:(lia)).
      unfold nextEvents. simpl. rewrite <- app_assoc. reflexivity.
Qed.

End ForAwait.

(** The last result of a finite source is the one that reports completion. *)
Lemma Delivers_last_done (it : Iterator) (s s' : state it) (rs : list IterResult) (r : IterResult) :
  Delivers it s (rs ++ [r]) s' -> done r = true.
Proof.
  revert s. induction rs as [|r0 rs IH]; intros s H; simpl in H.
  - inversion H; subst; [assumption|]. match goal with X : Delivers _ _ [] _ |- _ => inversion X end.
  - inversion H; subst.
    + destruct rs; discriminate.
    + eapply IH; eassumption.
Qed.

Lemma forAwait_delivers {A : Type} (iterable : Iterable) (cb : JsValue -> A -> Result A)
  (rs : list IterResult) (s' : state (getIterator iterable)) (a a' : A)
  (tr : list Event) (fuel : nat) :
  Delivers (getIterator iterable) (current (getIterator iterable)) rs s' ->
  foldCb cb (List.filter truthy (List.map value rs)) a = Ok a' ->
  (List.length rs <= fuel)%nat ->
  forAwait fuel iterable cb a tr =
    Some (Ok a', afterReturn (getIterator iterable) s',
          tr ++ nextEvents rs ++ returnEvents (getIterator iterable)).
Proof.
  intros Hd Hf Hfuel. unfold forAwait.
  rewrite (forAwait_loop_delivers _ _ _ _ _ Hd a a' tr fuel Hf Hfuel).
  unfold afterReturn, returnEvents.
  destruct (return_ (getIterator iterable)).
  - rewrite <- app_assoc. reflexivity.
  - rewrite app_nil_r. reflexivity.
Qed.

Lemma foldCb_recordCall (vs calls : list JsValue) :
  foldCb recordCall vs calls = Ok (calls ++ vs).
Proof.
  revert calls. induction vs as [|v vs IH]; intros calls; simpl.
  - rewrite app_nil_r. reflexivity.
  - rewrite IH, <- app_assoc. reflexivity.
Qed.

(** C9. On a source whose successive [next()] results are [rs] followed by
    a result [r] that reports completion, [forAwait] with enough fuel
    returns, and the callback was invoked exactly on the truthy values of
    [rs], in order, and then on the value that came with the completion
    when that value is truthy: the final chunk is not dropped, and every
    falsy value, final or not, is skipped. *)
Theorem forAwait_final_chunk_delivered (iterable : Iterable)
  (rs : list IterResult) (r : IterResult) (s' : state (getIterator iterable))
  (tr : list Event) (fuel : nat) :
  Delivers (getIterator iterable) (current (getIterator iterable)) (rs ++ [r]) s' ->
  (List.length rs < fuel)%nat ->
  done r = true /\
  forAwait fuel iterable recordCall [] tr =
    Some (Ok (List.filter truthy (List.map value rs)
              ++ (if truthy (value r) then [value r] else [])),
          afterReturn (getIterator iterable) s',
          tr ++ nextEvents (rs ++ [r]) ++ returnEvents (getIterator iterable)).
Proof.
  intros Hd Hfuel. split; [eapply Delivers_last_done; eassumption|].
  apply forAwait_delivers; [assumption| |rewrite length_app; simpl; lia].
  rewrite foldCb_recordCall. simpl.
  rewrite List.map_app, List.filter_app. simpl.
  destruct (truthy (value r)); reflexivity.
Qed.

(** *** [fromValue] *)

Lemma fromValue_exhausted_stays (v : JsValue) (calls : list IterCall) :
  callSequence (fromValue v) calls [] =
    (List.map (fun _ => Ok exhausted) (List.filter isNext calls), []).
Proof.
  induction calls as [|c calls IH]; [reflexivity|].
  destruct c; cbn [callSequence List.filter isNext List.map].
  - change (next (fromValue v) []) with (Ok exhausted, @nil JsValue).
    cbv beta iota. rewrite IH. reflexivity.
  - change (match return_ (fromValue v) with Some ret => ret [] | None => [] end)
      with (@nil JsValue).
    exact IH.
Qed.

Lemma fromValue_first_call_empties (v : JsValue) (c : IterCall) (calls : list IterCall) :
  snd (callSequence (fromValue v) (c :: calls) [v]) = [].
Proof.
  destruct c; cbn [callSequence].
  - change (next (fromValue v) [v]) with (Ok {| value := v; done := false |}, @nil JsValue).
    cbv beta iota. rewrite fromValue_exhausted_stays. reflexivity.
  - change (match return_ (fromValue v) with Some ret => ret [v] | None => [v] end)
      with (@nil JsValue).
    rewrite fromValue_exhausted_stays. reflexivity.
Qed.

Lemma exhausted_results_deliver_nothing (calls : list IterCall) :
  List.filter deliversValue (List.map (fun _ => Ok exhausted) (List.filter isNext calls)) = [].
Proof.
  induction calls as [|c calls IH]; [reflexivity|].
  destruct c; simpl; assumption.
Qed.

(** C10. The first [next()] of [fromValue(v)] resolves to [v] with
    [done = false]; once any call was made ([next] or [return]), every later
    [next()] resolves to [undefined] with [done = true], whatever calls come
    in between; and over any sequence of calls at most one [next()] resolves
    with [done = false]. *)
Theorem fromValue_delivers_once (v : JsValue) (c : IterCall) (pre post calls : list IterCall) :
  next (fromValue v) (current (fromValue v)) = (Ok {| value := v; done := false |}, []) /\
  fst (callSequence (fromValue v) post
         (snd (callSequence (fromValue v) (c :: pre) (current (fromValue v)))))
    = List.map (fun _ => Ok exhausted) (List.filter isNext post) /\
  (List.length (List.filter deliversValue
     (fst (callSequence (fromValue v) calls (current (fromValue v))))) <= 1)%nat.
Proof.
  split; [reflexivity|]. split.
  - change (current (fromValue v)) with [v].
    rewrite fromValue_first_call_empties, fromValue_exhausted_stays. reflexivity.
  - change (current (fromValue v)) with [v].
    destruct calls as [|[|] calls].
    + simpl. lia.
    + cbn [callSequence].
      change (next (fromValue v) [v]) with (Ok {| value := v; done := false |}, @nil JsValue).
      cbv beta iota. rewrite fromValue_exhausted_stays.
      cbn [fst List.filter deliversValue done negb List.length].
      rewrite exhausted_results_deliver_nothing. simpl. lia.
    + cbn [callSequence].
      change (match return_ (fromValue v) with Some ret => ret [v] | None => [v] end)
        with (@nil JsValue).
      rewrite fromValue_exhausted_stays. cbn [fst].
      rewrite exhausted_results_deliver_nothing. simpl. lia.
Qed.

(** *** [collect] *)

Lemma foldCb_collect_cb (chunks : list (list Z)) (buffers : list JsValue) (n : nat) :
  foldCb collect_cb (List.map VBytes chunks) (buffers, Some n) =
    Ok (buffers ++ List.map VBytes chunks,
        Some (n + List.length (List.concat chunks))%nat).
Proof.
  revert buffers n. induction chunks as [|c chunks IH]; intros buffers n; simpl.
  - rewrite app_nil_r, Nat.add_0_r. reflexivity.
  - rewrite IH, <- app_assoc, length_app, Nat.add_assoc. reflexivity.
Qed.

(** Writing a chunk right after what was written so far, into room that
    holds it. *)
Lemma Uint8Array_set_chunk (written c room : list Z) :
  (List.length c <= List.length room)%nat ->
  Uint8Array_set (written ++ room) (VBytes c) (Some (List.length written)) =
    Ok ((written ++ c) ++ List.skipn (List.length c) room).
Proof.
  intros Hfit. unfold Uint8Array_set.
  change (default 0%nat (Some (List.length written))) with (List.length written).
  cbn [arrayLike].
  destruct (Nat.ltb_spec (List.length (written ++ room))
              (List.length written + List.length c)) as [Hlt|_].
  { rewrite length_app in Hlt. lia. }
  f_equal.
  rewrite List.firstn_app, List.firstn_all, Nat.sub_diag, List.firstn_O, app_nil_r.
  rewrite List.skipn_app, (List.skipn_all2 written) by lia.
  replace (List.length written + List.length c - List.length written)%nat
    with (List.length c) by lia.
  rewrite <- app_assoc. reflexivity.
Qed.

(** Copying chunk after chunk into the zero-filled room left for them
    writes their concatenation. *)
Lemma collect_copy_chunks (chunks : list (list Z)) (written room : list Z) :
  List.length room = List.length (List.concat chunks) ->
  collect_copy (List.map VBytes chunks) (written ++ room) (Some (List.length written)) =
    Ok (written ++ List.concat chunks).
Proof.
  revert written room. induction chunks as [|c chunks IH]; intros written room Hroom.
  - simpl in *. destruct room; [reflexivity|discriminate].
  - cbn [List.map collect_copy List.concat] in *.
    rewrite length_app in Hroom.
    rewrite Uint8Array_set_chunk by lia.
    cbn [bind byteLength num_add]. rewrite <- length_app.
    rewrite IH; [rewrite <- app_assoc; reflexivity|].
    rewrite List.length_skipn. lia.
Qed.

Lemma length_concat_sum (chunks : list (list Z)) :
  List.length (List.concat chunks) = list_sum (List.map (@List.length Z) chunks).
Proof.
  induction chunks as [|c chunks IH]; simpl; [reflexivity|].
  rewrite length_app, IH. reflexivity.
Qed.

(** [collect] on a finite source whose truthy values are byte chunks. *)
Lemma collect_chunks (iterable : Iterable) (rs : list IterResult)
  (s' : state (getIterator iterable)) (chunks : list (list Z))
  (tr : list Event) (fuel : nat) :
  Delivers (getIterator iterable) (current (getIterator iterable)) rs s' ->
  List.filter truthy (List.map value rs) = List.map VBytes chunks ->
  (List.length rs <= fuel)%nat ->
  collect fuel iterable tr =
    Some (Ok (List.concat chunks), afterReturn (getIterator iterable) s',
          tr ++ nextEvents rs ++ returnEvents (getIterator iterable)).
Proof.
  intros Hd Hchunks Hfuel. unfold collect.
  rewrite (forAwait_delivers iterable collect_cb rs s' ([], Some 0%nat)
             (List.map VBytes chunks, Some (List.length (List.concat chunks))) tr fuel Hd).
  - unfold new_Uint8Array.
    change (default 0%nat (Some (List.length (List.concat chunks))))
      with (List.length (List.concat chunks)).
    do 3 f_equal.
    apply (collect_copy_chunks chunks [] (List.repeat 0 (List.length (List.concat chunks)))).
    apply List.repeat_length.
  - rewrite Hchunks, foldCb_collect_cb. reflexivity.
  - assumption.
Qed.

(** C6. On a finite source whose truthy values are the byte chunks
    [chunks], in that order, [collect] with enough fuel returns one buffer:
    the chunks concatenated in delivery order, of byte length the sum of
    the chunks' byte lengths. *)
Theorem collect_concatenates_chunks (iterable : Iterable) (rs : list IterResult)
  (s' : state (getIterator iterable)) (chunks : list (list Z))
  (tr : list Event) (fuel : nat) :
  Delivers (getIterator iterable) (current (getIterator iterable)) rs s' ->
  List.filter truthy (List.map value rs) = List.map VBytes chunks ->
  (List.length rs <= fuel)%nat ->
  exists buf : list Z,
    collect fuel iterable tr =
      Some (Ok buf, afterReturn (getIterator iterable) s',
            tr ++ nextEvents rs ++ returnEvents (getIterator iterable)) /\
    buf = List.concat chunks /\
    List.length buf = list_sum (List.map (@List.length Z) chunks).
Proof.
  intros Hd Hchunks Hfuel. exists (List.concat chunks).
  split; [|split].
  - apply collect_chunks; assumption.
  - reflexivity.
  - apply length_concat_sum.
Qed.

(** *** Every returning run of the loop is a complete drain *)

Lemma forAwait_loop_no_fetch {A : Type} (it : Iterator) (cb : JsValue -> A -> Result A)
  (fuel : nat) :
  forall (s s' : state it) (a : A) (tr tr' : list Event) (res : Result A),
    forAwait_loop fuel it cb s a tr = Some (res, s', tr') ->
    exists evs, tr' = tr ++ evs /\ List.existsb isFetch evs = false.
Proof.
  induction fuel as [|fuel IH]; intros s s' a tr tr' res H; [discriminate|].
  cbn [forAwait_loop] in H.
  destruct (next it s) as [[r|e] s1].
  - destruct (if truthy (value r) then cb (value r) a else Ok a) as [a1|e].
    + destruct (done r).
      * injection H as <- <- <-. exists [EvNext (Ok r)]. split; reflexivity.
      * apply IH in H. destruct H as [evs [-> H]].
        exists (EvNext (Ok r) :: evs).
        split; [rewrite <- app_assoc; reflexivity|exact H].
    + injection H as <- <- <-. exists [EvNext (Ok r)]. split; reflexivity.
  - injection H as <- <- <-. exists [EvNext (Throw e)]. split; reflexivity.
Qed.

Lemma forAwait_loop_complete {A : Type} (it : Iterator) (cb : JsValue -> A -> Result A)
  (fuel : nat) :
  forall (s s' : state it) (a a' : A) (tr tr' : list Event),
    forAwait_loop fuel it cb s a tr = Some (Ok a', s', tr') ->
    exists rs, Delivers it s rs s' /\
               foldCb cb (List.filter truthy (List.map value rs)) a = Ok a' /\
               tr' = tr ++ nextEvents rs.
Proof.
  induction fuel as [|fuel IH]; intros s s' a a' tr tr' H; [discriminate|].
  cbn [forAwait_loop] in H.
  destruct (next it s) as [[r|e] s1] eqn:Hn; [|discriminate].
  destruct (truthy (value r)) eqn:Ht.
  - destruct (cb (value r) a) as [a1|e] eqn:Hcb; [|discriminate].
    destruct (done r) eqn:Hd.
    + injection H as <- <- <-. exists [r]. split; [|split].
      * apply delivers_last; assumption.
      * simpl. rewrite Ht. simpl. rewrite Hcb. reflexivity.
      * reflexivity.
    + apply IH in H. destruct H as [rs [HD [Hf ->]]].
      exists (r :: rs). split; [|split].
      * eapply delivers_step; eassumption.
      * simpl. rewrite Ht. simpl. rewrite Hcb. exact Hf.
      * unfold nextEvents. simpl. rewrite <- app_assoc. reflexivity.
  - destruct (done r) eqn:Hd.
    + injection H as <- <- <-. exists [r]. split; [|split].
      * apply delivers_last; assumption.
      * simpl. rewrite Ht. reflexivity.
      * reflexivity.
    + apply IH in H. destruct H as [rs [HD [Hf ->]]].
      exists (r :: rs). split; [|split].
      * eapply delivers_step; eassumption.
      * simpl. rewrite Ht. exact Hf.
      * unfold nextEvents. simpl. rewrite <- app_assoc. reflexivity.
Qed.

(** What [collect] returns is settled by the loop. *)
Lemma collect_inv (fuel : nat) (b : Iterable) (tr tr' : list Event)
  (res : Result (list Z)) (it' : Iterator) :
  collect fuel b tr = Some (res, it', tr') ->
  (exists evs, tr' = tr ++ evs /\ List.existsb isFetch evs = false) /\
  (forall buf, res = Ok buf ->
     exists rs s', Delivers (getIterator b) (current (getIterator b)) rs s' /\
                   it' = afterReturn (getIterator b) s' /\
                   tr' = tr ++ nextEvents rs ++ returnEvents (getIterator b)).
Proof.
  unfold collect, forAwait. intros H.
  destruct (forAwait_loop fuel (getIterator b) collect_cb (current (getIterator b))
              ([], Some 0%nat) tr) as [[[r s1] tr1]|] eqn:Hl; [|discriminate].
  pose proof (forAwait_loop_no_fetch _ _ _ _ _ _ _ _ _ Hl) as [evs [-> Hevs]].
  destruct r as [[buffers size]|e].
  - apply forAwait_loop_complete in Hl. destruct Hl as [rs [HD [_ Htr]]].
    unfold afterReturn, returnEvents.
    destruct (return_ (getIterator b)) as [ret|].
    + injection H as <- <- <-. split.
      * exists (evs ++ [EvReturn]). split; [rewrite app_assoc; reflexivity|].
        rewrite List.existsb_app, Hevs. reflexivity.
      * intros buf _. exists rs, s1. split; [assumption|]. split; [reflexivity|].
        rewrite Htr, <- app_assoc. reflexivity.
    + injection H as <- <- <-. split.
      * exists evs. split; [reflexivity|assumption].
      * intros buf _. exists rs, s1. split; [assumption|]. split; [reflexivity|].
        rewrite Htr, app_nil_r. reflexivity.
  - injection H as <- <- <-. split.
    + exists evs. split; [reflexivity|assumption].
    + intros buf Hbuf. discriminate.
Qed.

(** *** [request] *)

(** C8. When a body is supplied: (1) on a finite source of byte chunks,
    [request] with enough fuel returns, and its trace is the complete drain
    of the source (every [next()] up to the one that reports completion,
    then [return()]) followed by one [fetch], whose body is the chunks
    concatenated; (2) in every run that returns, either no [fetch] was made
    and the run failed, or the trace is a complete drain followed by one
    [fetch] whose body is the buffer [collect] returned. *)
Theorem request_drains_body_before_fetch (fetch : FetchInit -> Result Response)
  (args : RequestArgs) (b : Iterable) (fuel : nat) :
  a_body args = Some b ->
  (forall (rs : list IterResult) (s' : state (getIterator b)) (chunks : list (list Z)),
     Delivers (getIterator b) (current (getIterator b)) rs s' ->
     List.filter truthy (List.map value rs) = List.map VBytes chunks ->
     (List.length rs <= fuel)%nat ->
     request fuel fetch args [] =
       Some (bind (fetch (requestInit args (Some (List.concat chunks))))
                  (request_respond (default "GET" (a_method args))),
             nextEvents rs ++ returnEvents (getIterator b)
               ++ [EvFetch (requestInit args (Some (List.concat chunks)))])) /\
  (forall (res : Result RequestResult) (tr' : list Event),
     request fuel fetch args [] = Some (res, tr') ->
     (List.existsb isFetch tr' = false /\ exists e, res = Throw e) \/
     (exists (rs : list IterResult) (s' : state (getIterator b)) (buf : list Z),
        Delivers (getIterator b) (current (getIterator b)) rs s' /\
        collect fuel b [] =
          Some (Ok buf, afterReturn (getIterator b) s',
                nextEvents rs ++ returnEvents (getIterator b)) /\
        tr' = nextEvents rs ++ returnEvents (getIterator b)
                ++ [EvFetch (requestInit args (Some buf))])).
Proof.
  intros Hbody. split.
  - intros rs s' chunks HD Hchunks Hfuel. unfold request. rewrite Hbody.
    rewrite (collect_chunks b rs s' chunks [] fuel HD Hchunks Hfuel).
    unfold request_fetch. rewrite <- !app_assoc. reflexivity.
  - intros res tr' H. unfold request in H. rewrite Hbody in H.
    destruct (collect fuel b []) as [[[r it'] tr1]|] eqn:Hc; [|discriminate].
    pose proof (collect_inv _ _ _ _ _ _ Hc) as [[evs [Hevs Hnf]] Hok].
    destruct r as [buf|e].
    + right. destruct (Hok buf eq_refl) as [rs [s' [HD [Hit Htr]]]].
      exists rs, s', buf. simpl in Htr.
      split; [assumption|]. split; [rewrite Hit, Htr; reflexivity|].
      unfold request_fetch in H. injection H as _ <-.
      rewrite Htr, <- app_assoc. reflexivity.
    + left. injection H as <- <-. simpl in Hevs. rewrite Hevs.
      split; [assumption|]. exists e. reflexivity.
Qed.

(** *** The properties at a concrete source *)

(** The scripted source delivers its three results and ends after the
    third call. *)
Lemma lateChunkSource_delivers :
  Delivers (getIterator lateChunkSource) (current (getIterator lateChunkSource))
    lateChunkScript 3%nat.
Proof.
  eapply delivers_step; [reflexivity|reflexivity|].
  eapply delivers_step; [reflexivity|reflexivity|].
  apply delivers_last; reflexivity.
Defined.

(** [forAwait] on the scripted source: the chunk that comes with the
    completion is the second value the callback receives, and the zero in
    between is skipped. *)
Lemma forAwait_final_chunk_delivered_witness :
  forAwait 3 lateChunkSource recordCall [] [] =
    Some (Ok [VBytes [1; 2]; VBytes [3]],
          afterReturn (getIterator lateChunkSource) 3%nat,
          nextEvents lateChunkScript ++ [EvReturn]).
Proof.
  exact (proj2 (forAwait_final_chunk_delivered lateChunkSource
                  [ {| value := VBytes [1; 2]; done := false |};
                    {| value := VNum 0; done := false |} ]
                  {| value := VBytes [3]; done := true |} 3%nat [] 3
                  lateChunkSource_delivers (le_n 3))).
Defined.

(** [collect] on the scripted source: the three bytes of its two chunks. *)
Lemma collect_concatenates_chunks_witness :
  exists buf : list Z,
    collect 3 lateChunkSource [] =
      Some (Ok buf, afterReturn (getIterator lateChunkSource) 3%nat,
            nextEvents lateChunkScript ++ [EvReturn]) /\
    buf = [1; 2; 3] /\ List.length buf = 3%nat.
Proof.
  exact (collect_concatenates_chunks lateChunkSource lateChunkScript 3%nat
           [[1; 2]; [3]] [] 3 lateChunkSource_delivers eq_refl (le_n 3)).
Defined.

(** [request] with the scripted source as body: three [next()] calls and
    the [return()] come before the [fetch] of the three bytes. *)
Lemma request_drains_body_before_fetch_witness :
  request 3 echoFetch postArgs [] =
    Some (bind (echoFetch (requestInit postArgs (Some [1; 2; 3]))) (request_respond "POST"),
          nextEvents lateChunkScript ++ [EvReturn]
            ++ [EvFetch (requestInit postArgs (Some [1; 2; 3]))]).
Proof.
  exact (proj1 (request_drains_body_before_fetch echoFetch postArgs lateChunkSource 3 eq_refl)
           lateChunkScript 3%nat [[1; 2]; [3]] lateChunkSource_delivers eq_refl (le_n 3)).
Defined.

(** ** Error translation *)

Section NotFound.

Context {W : Type}.
Variable deno : Deno W.

Lemma catchNotFound_matches {A : Type} (sc path : string) (err : NodeError) :
  matchesNotFound (message err) = true ->
  catchNotFound (A := A) sc path (Throw err) = Throw (enoent sc path).
Proof. intros H. unfold catchNotFound. rewrite H. reflexivity. Qed.

Lemma catchNotFound_other {A : Type} (sc path : string) (err : NodeError) :
  matchesNotFound (message err) = false ->
  catchNotFound (A := A) sc path (Throw err) = Throw err.
Proof. intros H. unfold catchNotFound. rewrite H. reflexivity. Qed.

(** X1. When the platform call of one of the six operations rejects with a
    not-found message, the operation rejects with the [ENOENT] error, whose
    [syscall] is ["stat"] for [stat] and ["open"] for the five others; any
    other platform error is rejected unchanged. *)
Theorem notFound_translation (path : string) (options : Arg) (w : W) (err : NodeError) :
  let expect (sc : string) (r : Result OpValue) :=
    r = if matchesNotFound (message err) then Throw (enoent sc path) else Throw err in
  (fst (Deno_readFile deno path w) = Throw err ->
   isUtf8 (optProp options "encoding") = false ->
   expect "open" (fst (readFile deno path options w))) /\
  (fst (Deno_readTextFile deno path w) = Throw err ->
   isUtf8 (optProp options "encoding") = true ->
   expect "open" (fst (readFile deno path options w))) /\
  (fst (Deno_stat deno path w) = Throw err ->
   expect "stat" (fst (stat deno path options w))) /\
  (fst (Deno_lstat deno path w) = Throw err ->
   expect "open" (fst (lstat deno path w))) /\
  (fst (Deno_readLink deno path w) = Throw err ->
   expect "open" (fst (readlink deno path options w))) /\
  (fst (Deno_remove deno path (FBool false) w) = Throw err ->
   expect "open" (fst (unlink deno path w))) /\
  (forall recursive,
     prop (orDefault options rmdirDefaults) "recursive" = Ok recursive ->
     fst (Deno_remove deno path recursive w) = Throw err ->
     expect "open" (fst (rmdir deno path options w))).
Proof.
  cbv zeta. repeat split.
  - intros H Henc. unfold readFile. rewrite Henc. simpl. rewrite H. reflexivity.
  - intros H Henc. unfold readFile. rewrite Henc. simpl. rewrite H. reflexivity.
  - intros H. unfold stat. simpl. rewrite H. reflexivity.
  - intros H. unfold lstat. simpl. rewrite H. reflexivity.
  - intros H. unfold readlink. simpl. rewrite H. reflexivity.
  - intros H. unfold unlink. simpl. rewrite H. reflexivity.
  - intros recursive Hp H. unfold rmdir. rewrite Hp. simpl. rewrite H. reflexivity.
Qed.

End NotFound.

(** [stat] on a missing path of the in-memory platform: the platform's
    message matches, and the error names [stat]. *)
Lemma notFound_translation_witness :
  fst (stat memDeno "missing" AUndefined emptyFS) =
    (if matchesNotFound (message notFound)
     then Throw (enoent "stat" "missing") else Throw notFound).
Proof.
  exact (proj1 (proj2 (proj2 (notFound_translation memDeno "missing" AUndefined
                                emptyFS notFound))) eq_refl).
Defined.

(** C1. On a store where [path] does not exist, the platform rejects with
    its not-found message, and [unlink], [rmdir], [lstat] and [readlink]
    reject with an [ENOENT] error whose [syscall] is ["open"], not the name
    of the operation that failed; [readFile] and [stat] carry ["open"] and
    ["stat"]. *)
Theorem missing_path_syscall_names (path : string) :
  fst (readFile memDeno path AUndefined emptyFS) = Throw (enoent "open" path) /\
  fst (stat memDeno path AUndefined emptyFS) = Throw (enoent "stat" path) /\
  fst (unlink memDeno path emptyFS) = Throw (enoent "open" path) /\
  fst (rmdir memDeno path AUndefined emptyFS) = Throw (enoent "open" path) /\
  fst (lstat memDeno path emptyFS) = Throw (enoent "open" path) /\
  fst (readlink memDeno path AUndefined emptyFS) = Throw (enoent "open" path) /\
  code (enoent "open" path) = Some "ENOENT" /\
  syscall (enoent "open" path) = Some "open" /\
  syscall (enoent "open" path) <> Some "unlink" /\
  syscall (enoent "open" path) <> Some "rmdir" /\
  syscall (enoent "open" path) <> Some "lstat" /\
  syscall (enoent "open" path) <> Some "readlink".
Proof.
  repeat split; try reflexivity; discriminate.
Qed.

(** ** [lstat] *)

(** The fields [lstat] adds. For the access, modification and creation
    times the millisecond field is set exactly when the base field holds a
    date, to that date's epoch milliseconds, and the base field is kept.
    The change time defaults to the creation time, and its millisecond
    field is assigned whether or not a date is there. *)
Theorem lstat_millisecond_fields (result : FileInfo) :
  let r := lstatFields result in
  (atimeMs r = if datePresent (atime result) then Some (getTime (atime result)) else None) /\
  (mtimeMs r = if datePresent (mtime result) then Some (getTime (mtime result)) else None) /\
  (birthtimeMs r =
     if datePresent (birthtime result) then Some (getTime (birthtime result)) else None) /\
  atime (info r) = atime result /\ mtime (info r) = mtime result /\
  birthtime (info r) = birthtime result /\
  ctime (info r) = nullish (ctime result) (birthtime result) /\
  ctimeMs r = Some (getTime (ctime (info r))) /\
  (forall ms, ctime result = DateAt ms -> ctimeMs r = Some (Finite ms)) /\
  (forall ms, datePresent (ctime result) = false -> birthtime result = DateAt ms ->
     ctimeMs r = Some (Finite ms)).
Proof.
  cbv zeta. repeat split.
  - intros ms H. unfold lstatFields. rewrite H. reflexivity.
  - intros ms Hc Hb. unfold lstatFields. rewrite Hb.
    destruct (ctime result); [reflexivity|reflexivity|discriminate].
Qed.

(** C3. On a file whose platform record has neither a change time nor a
    creation time, [lstat] returns a record in which [ctime] holds no date
    and [ctimeMs] is present all the same, with the value 0; the access and
    modification fields of the same record follow the rule. Whatever the
    platform's record, [ctimeMs] is present. *)
Theorem lstat_ctimeMs_without_ctime :
  (exists r : NodeFileInfo,
     fst (lstat memDeno "a.txt" oneFileFS) = Ok (RNodeInfo r) /\
     datePresent (ctime (info r)) = false /\
     ctimeMs r = Some (Finite 0) /\
     datePresent (birthtime (info r)) = false /\ birthtimeMs r = None /\
     atimeMs r = Some (Finite 1700000000500) /\ mtimeMs r = Some (Finite 1700000000000)) /\
  (forall result : FileInfo, ctimeMs (lstatFields result) <> None).
Proof.
  split.
  - eexists. split; [vm_compute; reflexivity|]. repeat split.
  - intros result. discriminate.
Qed.

(** ** [symlink] *)

(** On any platform, [symlink(target, path, type)] passes [path] as the
    platform's [oldpath] and [target] as its [newpath]. *)
Lemma symlink_platform_call {W : Type} (deno : Deno W) (target path : string)
  (type : Field) (w : W) :
  exists ty : option Field,
    symlink deno target path type w =
      resolved (fun _ => RUndefined) (Deno_symlink deno path target ty w).
Proof.
  unfold symlink.
  destruct (fieldTruthy match type with FUndefined => FStr "file" | _ => type end);
    eexists; reflexivity.
Qed.

(** C4. On the empty store, [symlink(target, path, type)] leaves exactly
    one entry: a link located at [target] whose link target is [path]. When
    the two names differ there is nothing at [path], and [readlink(path)]
    fails. *)
Theorem symlink_creates_link_at_target (target path : string) (type : Field) :
  nodes (snd (symlink memDeno target path type emptyFS)) = {[ target := NLink path ]} /\
  (nodes (snd (symlink memDeno "a.txt" "link" type emptyFS)) !! "link" = None /\
   fst (readlink memDeno "link" AUndefined
          (snd (symlink memDeno "a.txt" "link" type emptyFS)))
     = Throw (enoent "open" "link") /\
   fst (readlink memDeno "a.txt" AUndefined
          (snd (symlink memDeno "a.txt" "link" type emptyFS)))
     = Ok (RLink "link")).
Proof.
  assert (Hany : forall t p, nodes (snd (symlink memDeno t p type emptyFS)) = {[ t := NLink p ]}).
  { intros t p. unfold symlink.
    destruct (fieldTruthy match type with FUndefined => FStr "file" | _ => type end);
      reflexivity. }
  split; [apply Hany|].
  unfold readlink, resolved. cbn [memDeno Deno_readLink mem_readLink fst snd].
  rewrite Hany. repeat split.
Qed.

(** ** [mkdir] *)

(** A numeric mode reaches the platform unchanged. *)
Lemma mkdirMode_number (n : Number) : mkdirMode (FNum n) = FNum n.
Proof. reflexivity. Qed.

(** A mode given as a string of decimal digits is read in base ten. *)
Lemma mkdir_string_mode {W : Type} (deno : Deno W) (path : string) (w : W) :
  mkdir deno path (AObj {[ "mode" := FStr "777" ]}) w =
    (catchMkdir path
       (fst (resolved (fun _ => RUndefined)
               (Deno_mkdir deno path (FBool false) (FNum (Finite 777)) w))),
     snd (Deno_mkdir deno path (FBool false) (FNum (Finite 777)) w)).
Proof. reflexivity. Qed.

(** C5. [mkdir] with the mode ["777"] creates the directory with the mode
    777 in base ten, which is [0o1411], and not with the permission bits
    [0o777], which are the number 511; a numeric mode reaches the platform
    as it is. *)
Theorem mkdir_octal_string_read_as_decimal (path : string) :
  nodes (snd (mkdir memDeno path (AObj {[ "mode" := FStr "777" ]}) emptyFS))
    = {[ path := NDir (Finite 777) ]} /\
  mkdirMode (FStr "777") = FNum (Finite 777) /\
  777 <> 7 * 8 * 8 + 7 * 8 + 7 /\
  nodes (snd (mkdir memDeno path (AObj {[ "mode" := FNum (Finite 511) ]}) emptyFS))
    = {[ path := NDir (Finite 511) ]}.
Proof. repeat split; try reflexivity. lia. Qed.

(** ** The callback form *)

Section Resolve.

Variables defaults options cb : Arg.

(** A function in the options position, and none after it: it is the
    callback, and the options are the defaults. *)
Lemma resolve_function_as_options :
  isFunction options = true -> isFunction cb = false ->
  resolve defaults options cb = Ok {| r_options := defaults; r_cb := options |}.
Proof.
  intros Ho Hc. unfold resolve. rewrite Ho, Hc.
  destruct options; try discriminate. reflexivity.
Qed.

(** Options that are not a function, followed by a function: the options
    are merged over the defaults. *)
Lemma resolve_options_then_callback :
  isFunction options = false -> isFunction cb = true ->
  resolve defaults options cb =
    Ok {| r_options := AObj (merge defaults options); r_cb := cb |}.
Proof.
  intros Ho Hc. unfold resolve. rewrite Ho, Hc.
  destruct cb; try discriminate. reflexivity.
Qed.

(** Nothing in either position: the synchronous error. *)
Lemma resolve_nothing_supplied :
  argTruthy options = false -> isFunction cb = false ->
  resolve defaults options cb = Throw (plainError "Error" "Callback function not defined").
Proof.
  intros Ho Hc. unfold resolve. rewrite Hc.
  destruct options; try discriminate; reflexivity.
Qed.

(** A property of the merged options is the caller's when the caller's
    object has it, and the default otherwise. *)
Lemma merge_lookup (key : string) :
  merge defaults options !! key =
    match spread options !! key with
    | Some v => Some v
    | None => spread defaults !! key
    end.
Proof.
  unfold merge. rewrite lookup_union.
  destruct (spread options !! key), (spread defaults !! key); reflexivity.
Qed.

End Resolve.

(** A callback that returns normally is called once by the chain, with the
    result or with the error. *)
Lemma thenCatch_quiet (callee : string) (f : Callback) (r : Result OpValue) :
  (forall c, cb_run f c = None) ->
  thenCatch callee (AFun f) r [] =
    (Ok tt, [(cb_id f,
              match r with
              | Ok v => {| c_err := None; c_result := Some v |}
              | Throw e => {| c_err := Some e; c_result := None |}
              end)]).
Proof.
  intros Hq. destruct r as [v|e]; unfold thenCatch, invoke; rewrite Hq; reflexivity.
Qed.

(** Whenever [resolve] hands the body a callback function that returns
    normally, the call in the callback form throws nothing, leaves no
    rejection unhandled, and calls the callback exactly once, with exactly
    one of an error and a result. *)
Lemma viaCallback_once {W : Type} (rs : Resolved) (f : Callback)
  (op : Arg -> W -> Result OpValue * W) (w : W) :
  r_cb rs = AFun f -> (forall c, cb_run f c = None) ->
  exists c : Call,
    calls (viaCallback (Ok rs) op w) = [(cb_id f, c)] /\
    deliversOne c = true /\
    thrown (viaCallback (Ok rs) op w) = None /\
    unhandled (viaCallback (Ok rs) op w) = None.
Proof.
  intros Hcb Hq. unfold viaCallback, chain. rewrite Hcb.
  rewrite (thenCatch_quiet _ f _ Hq). cbn [fst snd calls thrown unhandled].
  eexists. split; [reflexivity|]. split; [|split; reflexivity].
  destruct (fst (op (r_options rs) w)); reflexivity.
Qed.

(** X3. A callback function that returns normally, supplied in the callback
    position, or in the options position with no function after it, is
    called exactly once, with exactly one of an error and a result; nothing
    is thrown and no rejection is left unhandled. *)
Theorem supplied_callback_called_once {W : Type} (defaults options cb : Arg)
  (f : Callback) (op : Arg -> W -> Result OpValue * W) (w : W) :
  cb = AFun f \/ (isFunction cb = false /\ options = AFun f) ->
  (forall c, cb_run f c = None) ->
  exists c : Call,
    calls (viaCallback (resolve defaults options cb) op w) = [(cb_id f, c)] /\
    deliversOne c = true /\
    thrown (viaCallback (resolve defaults options cb) op w) = None /\
    unhandled (viaCallback (resolve defaults options cb) op w) = None.
Proof.
  intros [->|[Hcb ->]] Hq.
  - assert (Hr : exists o, resolve defaults options (AFun f) =
                           Ok {| r_options := o; r_cb := AFun f |}).
    { unfold resolve. cbn [isFunction argTruthy negb]. eexists. reflexivity. }
    destruct Hr as [o ->]. apply viaCallback_once; [reflexivity|assumption].
  - rewrite resolve_function_as_options by (reflexivity || assumption).
    apply viaCallback_once; [reflexivity|assumption].
Qed.

(** [fs.readFile("a.txt", cb)]: the callback is called once. *)
Lemma supplied_callback_called_once_witness :
  exists c : Call,
    calls (fs_readFile memDeno "a.txt" (AFun (quietCallback 3)) AUndefined oneFileFS)
      = [(3%nat, c)] /\
    deliversOne c = true /\
    thrown (fs_readFile memDeno "a.txt" (AFun (quietCallback 3)) AUndefined oneFileFS) = None /\
    unhandled (fs_readFile memDeno "a.txt" (AFun (quietCallback 3)) AUndefined oneFileFS) = None.
Proof.
  exact (supplied_callback_called_once (AObj {[ "encoding" := FStr "utf8" ]})
           (AFun (quietCallback 3)) AUndefined (quietCallback 3)
           (readFile memDeno "a.txt") oneFileFS
           (or_intror (conj eq_refl eq_refl)) (fun _ => eq_refl)).
Defined.

(** [resolve] by cases on its arguments: the callback is [cb] when [cb] is
    a function and [options] otherwise; the options are the defaults when
    [options] is a function and the merge otherwise; the error is thrown
    only when the value taken for the callback is falsy. *)
Theorem resolve_by_cases (defaults options cb : Arg) :
  resolve defaults options cb =
    if isFunction cb
    then Ok {| r_options := if isFunction options then defaults
                            else AObj (merge defaults options);
               r_cb := cb |}
    else if isFunction options
         then Ok {| r_options := defaults; r_cb := options |}
         else if argTruthy options
              then Ok {| r_options := AObj (merge defaults options); r_cb := options |}
              else Throw (plainError "Error" "Callback function not defined").
Proof. destruct cb, options; reflexivity. Qed.

(** Without a function to call, the chain calls nothing and ends in an
    unhandled [TypeError]. *)
Lemma chain_without_function {W : Type} (callee : string) (cb : Arg)
  (rw : Result OpValue * W) :
  isFunction cb = false ->
  thrown (chain callee cb rw) = None /\
  calls (chain callee cb rw) = [] /\
  unhandled (chain callee cb rw) = Some (plainError "TypeError" (callee +:+ " is not a function")).
Proof.
  intros H. unfold chain, thenCatch, invoke.
  destruct cb; try discriminate; destruct (fst rw); repeat split.
Qed.

(** C2. Three calls in the callback form. (1) [fs.readFile(path, options)]
    with an options object and no callback, on any platform: [resolve]
    takes the object for the callback, nothing is thrown synchronously, no
    callback runs, and the [TypeError] of calling the object ends as an
    unhandled rejection. (2) [fs.symlink(target, path, cb)] with a function
    in the position before the callback position, on any platform: the
    function is wrapped as [{ type }], is never treated as the callback and
    is never called. (3) A callback that throws when it is handed the
    result is called a second time, with the error it threw. *)
Theorem callback_form_divergences {W : Type} (deno : Deno W) (target path : string)
  (o : gmap string Field) (f : Callback) (w : W) :
  let defaults := AObj {[ "encoding" := FStr "utf8" ]} in
  let o1 := fs_readFile deno path (AObj o) AUndefined w in
  let o2 := fs_symlink deno target path (FFun f) AUndefined w in
  let o3 := fs_readFile memDeno "a.txt" (AFun (failingCallback 9)) AUndefined oneFileFS in
  (resolve defaults (AObj o) AUndefined =
     Ok {| r_options := AObj (merge defaults (AObj o)); r_cb := AObj o |} /\
   thrown o1 = None /\ calls o1 = [] /\
   unhandled o1 = Some (plainError "TypeError" "resolved.cb is not a function")) /\
  (thrown o2 = None /\ calls o2 = [] /\
   unhandled o2 = Some (plainError "TypeError" "resolved.cb is not a function")) /\
  (thrown o3 = None /\
   calls o3 =
     [(9%nat, {| c_err := None; c_result := Some (RData (DString [104; 105])) |});
      (9%nat, {| c_err := Some (plainError "Error" "callback failed"); c_result := None |})]).
Proof.
  cbv zeta. split; [|split].
  - split; [reflexivity|].
    exact (chain_without_function "resolved.cb" (AObj o) _ eq_refl).
  - exact (chain_without_function "resolved.cb" (AObj {[ "type" := FFun f ]}) _ eq_refl).
  - repeat split.
Qed.

(** ** UTF-8 *)

(** Goals about quotients and remainders by constants. *)
Ltac divmod := Z.div_mod_to_equations; lia.

Lemma lor_disjoint (hi lo n : Z) :
  0 <= n -> 0 <= lo < 2 ^ n -> Z.lor (hi * 2 ^ n) lo = hi * 2 ^ n + lo.
Proof.
  intros Hn Hlo.
  assert (Hland : Z.land (hi * 2 ^ n) lo = 0).
  { apply Z.bits_inj'. intros i Hi. rewrite Z.land_spec, Z.bits_0.
    destruct (Z.lt_ge_cases i n) as [Hlt|Hge].
    - rewrite Z.mul_pow2_bits_low by assumption. reflexivity.
    - destruct (Z.eq_dec lo 0) as [->|Hnz].
      + rewrite Z.bits_0. apply andb_false_r.
      + rewrite (Z.bits_above_log2 lo i); [apply andb_false_r|lia|].
        apply Z.log2_lt_pow2; [lia|].
        apply Z.lt_le_trans with (2 ^ n); [lia|].
        apply Z.pow_le_mono_r; lia. }
  rewrite <- Z.lxor_lor by assumption.
  rewrite Z.add_nocarry_lxor by assumption. reflexivity.
Qed.

Lemma land_low6 (x : Z) : Z.land x 0x3F = x mod 64.
Proof. change 0x3F with (Z.ones 6). rewrite Z.land_ones by lia. reflexivity. Qed.

Lemma contByte_arith (x k : Z) :
  0 <= k -> contByte x k = 128 + (x / 2 ^ (6 * k)) mod 64.
Proof.
  intros Hk. unfold contByte.
  rewrite land_low6, Z.shiftr_div_pow2 by lia.
  change 0x80 with (2 * 2 ^ 6). apply lor_disjoint; [lia|].
  change (2 ^ 6) with 64. apply Z.mod_pos_bound. lia.
Qed.

Lemma addBits_arith (acc b : Z) : addBits acc b = acc * 64 + b mod 64.
Proof.
  unfold addBits. rewrite land_low6, Z.shiftl_mul_pow2 by lia.
  change (2 ^ 6) with 64. change 64 with (2 ^ 6) at 1 3.
  apply lor_disjoint; [lia|]. change (2 ^ 6) with 64. apply Z.mod_pos_bound. lia.
Qed.

Lemma isCont_true (lo hi b : Z) : lo <= b <= hi -> isCont lo hi b = true.
Proof. intros H. unfold isCont. apply andb_true_intro. split; apply Z.leb_le; lia. Qed.

Lemma isCont_false_above (lo hi b : Z) : hi < b -> isCont lo hi b = false.
Proof.
  intros H. unfold isCont. apply andb_false_intro2. apply Z.leb_gt. lia.
Qed.

Lemma decode_two (b0 b1 : Z) (rest : list Z) :
  0xC2 <= b0 <= 0xDF -> 0x80 <= b1 <= 0xBF ->
  decodeBytes (b0 :: b1 :: rest) = addBits (Z.land b0 0x1F) b1 :: decodeBytes rest.
Proof.
  intros H0 H1. cbn [decodeBytes].
  destruct (Z.leb_spec b0 0x7F); [lia|].
  rewrite (isCont_true 0xC2 0xDF b0), (isCont_true 0x80 0xBF b1) by lia.
  reflexivity.
Qed.

Lemma decode_three (b0 b1 b2 : Z) (rest : list Z) :
  0xE0 <= b0 <= 0xEF ->
  (if b0 =? 0xE0 then 0xA0 else 0x80) <= b1 <= (if b0 =? 0xED then 0x9F else 0xBF) ->
  0x80 <= b2 <= 0xBF ->
  decodeBytes (b0 :: b1 :: b2 :: rest) =
    addBits (addBits (Z.land b0 0xF) b1) b2 :: decodeBytes rest.
Proof.
  intros H0 H1 H2. cbn [decodeBytes].
  destruct (Z.leb_spec b0 0x7F); [lia|].
  rewrite (isCont_false_above 0xC2 0xDF b0) by lia.
  rewrite (isCont_true 0xE0 0xEF b0) by lia.
  rewrite (isCont_true _ _ b1 H1), (isCont_true 0x80 0xBF b2) by lia.
  reflexivity.
Qed.

Lemma decode_four (b0 b1 b2 b3 : Z) (rest : list Z) :
  0xF0 <= b0 <= 0xF4 ->
  (if b0 =? 0xF0 then 0x90 else 0x80) <= b1 <= (if b0 =? 0xF4 then 0x8F else 0xBF) ->
  0x80 <= b2 <= 0xBF -> 0x80 <= b3 <= 0xBF ->
  decodeBytes (b0 :: b1 :: b2 :: b3 :: rest) =
    addBits (addBits (addBits (Z.land b0 0x7) b1) b2) b3 :: decodeBytes rest.
Proof.
  intros H0 H1 H2 H3. cbn [decodeBytes].
  destruct (Z.leb_spec b0 0x7F); [lia|].
  rewrite (isCont_false_above 0xC2 0xDF b0) by lia.
  rewrite (isCont_false_above 0xE0 0xEF b0) by lia.
  rewrite (isCont_true 0xF0 0xF4 b0) by lia.
  rewrite (isCont_true _ _ b1 H1), (isCont_true 0x80 0xBF b2),
    (isCont_true 0x80 0xBF b3) by lia.
  reflexivity.
Qed.

(** Decoding undoes the encoding of one scalar value, whatever follows. *)
Lemma decode_encodeScalar (cp : Z) (rest : list Z) :
  isScalar cp = true ->
  decodeBytes (encodeScalar cp ++ rest) = cp :: decodeBytes rest.
Proof.
  unfold isScalar, isSurrogate. intros H.
  apply andb_prop in H as [H Hs]. apply andb_prop in H as [Hlo Hhi].
  apply Z.leb_le in Hlo, Hhi. apply negb_true_iff, andb_false_iff in Hs.
  assert (Hns : cp < 0xD800 \/ 0xDFFF < cp).
  { destruct Hs as [Hs|Hs]; apply Z.leb_gt in Hs; lia. }
  clear Hs. unfold encodeScalar.
  destruct (Z.leb_spec cp 0x7F) as [H1|H1].
  { cbn [app decodeBytes]. destruct (Z.leb_spec cp 0x7F); [reflexivity|lia]. }
  destruct (Z.leb_spec cp 0x7FF) as [H2|H2].
  { cbn [app]. rewrite decode_two.
    - f_equal. rewrite addBits_arith, contByte_arith by lia.
      change 0x1F with (Z.ones 5). rewrite Z.land_ones, Z.shiftr_div_pow2 by lia.
      change (2 ^ (6 * 0)) with 1. change (2 ^ 6) with 64. change (2 ^ 5) with 32.
      rewrite Z.div_1_r. divmod.
    - rewrite Z.shiftr_div_pow2 by lia. change (2 ^ 6) with 64.
      divmod.
    - rewrite contByte_arith by lia. divmod. }
  destruct (Z.leb_spec cp 0xFFFF) as [H3|H3].
  { cbn [app]. rewrite decode_three.
    - f_equal. rewrite !addBits_arith, !contByte_arith by lia.
      change 0xF with (Z.ones 4). rewrite Z.land_ones, Z.shiftr_div_pow2 by lia.
      change (2 ^ (6 * 0)) with 1. change (2 ^ (6 * 1)) with 64.
      change (2 ^ 12) with 4096. change (2 ^ 4) with 16.
      rewrite Z.div_1_r. divmod.
    - rewrite Z.shiftr_div_pow2 by lia. change (2 ^ 12) with 4096.
      divmod.
    - rewrite contByte_arith, Z.shiftr_div_pow2 by lia.
      change (2 ^ (6 * 1)) with 64. change (2 ^ 12) with 4096.
      destruct (Z.eqb_spec (cp / 4096 + 0xE0) 0xE0);
        destruct (Z.eqb_spec (cp / 4096 + 0xE0) 0xED);
        divmod.
    - rewrite contByte_arith by lia. divmod. }
  cbn [app]. rewrite decode_four.
  - f_equal. rewrite !addBits_arith, !contByte_arith by lia.
    change 0x7 with (Z.ones 3). rewrite Z.land_ones, Z.shiftr_div_pow2 by lia.
    change (2 ^ (6 * 0)) with 1. change (2 ^ (6 * 1)) with 64.
    change (2 ^ (6 * 2)) with 4096.
    change (2 ^ 18) with 262144. change (2 ^ 3) with 8.
    rewrite Z.div_1_r. divmod.
  - rewrite Z.shiftr_div_pow2 by lia. change (2 ^ 18) with 262144.
    divmod.
  - rewrite contByte_arith, Z.shiftr_div_pow2 by lia.
    change (2 ^ (6 * 2)) with 4096. change (2 ^ 18) with 262144.
    destruct (Z.eqb_spec (cp / 262144 + 0xF0) 0xF0);
      destruct (Z.eqb_spec (cp / 262144 + 0xF0) 0xF4);
      divmod.
  - rewrite contByte_arith by lia. divmod.
  - rewrite contByte_arith by lia. divmod.
Qed.

Lemma encode_scalars (s : list Z) :
  List.forallb isScalar s = true ->
  decodeBytes (TextEncoder_encode s) = s.
Proof.
  unfold TextEncoder_encode. induction s as [|cp s IH]; intros H; [reflexivity|].
  cbn [List.forallb] in H. apply andb_prop in H as [Hcp Hs].
  cbn [List.flat_map].
  assert (Hns : isSurrogate cp = false).
  { unfold isScalar in Hcp. apply andb_prop in Hcp as [_ Hcp].
    apply negb_true_iff in Hcp. exact Hcp. }
  rewrite Hns, decode_encodeScalar by assumption.
  rewrite IH by assumption. reflexivity.
Qed.

(** Bytes that start with the byte order mark decode to a string that
    starts with U+FEFF. *)
Lemma decodeBytes_bom (rest : list Z) :
  decodeBytes (0xEF :: 0xBB :: 0xBF :: rest) = 0xFEFF :: decodeBytes rest.
Proof. rewrite decode_three by (simpl; lia). reflexivity. Qed.

(** The round trip of a string through [TextEncoder] and [TextDecoder]. *)
Lemma decode_encode (s : list Z) :
  wellFormed s = true -> TextDecoder_decode (TextEncoder_encode s) = s.
Proof.
  unfold wellFormed. intros H. apply andb_prop in H as [Hs Hbom].
  pose proof (encode_scalars s Hs) as Hdec.
  unfold TextDecoder_decode.
  destruct (TextEncoder_encode s) as [|b0 [|b1 [|b2 rest]]]; try exact Hdec.
  destruct ((b0 =? 0xEF) && (b1 =? 0xBB) && (b2 =? 0xBF)) eqn:Hb; [|exact Hdec].
  apply andb_prop in Hb as [Hb Hb2]. apply andb_prop in Hb as [Hb0 Hb1].
  apply Z.eqb_eq in Hb0, Hb1, Hb2. subst b0 b1 b2.
  rewrite decodeBytes_bom in Hdec. rewrite <- Hdec in Hbom.
  discriminate Hbom.
Qed.

(** *** What the decoder produces *)

Lemma isScalar_intro (x : Z) :
  0 <= x <= 0x10FFFF -> x < 0xD800 \/ 0xDFFF < x -> isScalar x = true.
Proof.
  intros Hr Hs. unfold isScalar, isSurrogate.
  apply andb_true_intro. split.
  - apply andb_true_intro. split; apply Z.leb_le; lia.
  - apply negb_true_iff, andb_false_iff.
    destruct Hs; [left|right]; apply Z.leb_gt; lia.
Qed.

Lemma isCont_range (lo hi b : Z) : isCont lo hi b = true -> lo <= b <= hi.
Proof.
  unfold isCont. intros H. apply andb_prop in H as [H1 H2].
  apply Z.leb_le in H1, H2. lia.
Qed.

Lemma isByte_range (b : Z) : isByte b = true -> 0 <= b <= 255.
Proof. apply isCont_range. Qed.

Ltac decode_case :=
  match goal with
  | |- context [if ?c then _ else _] => destruct c eqn:?
  | |- context [match ?l with [] => _ | _ :: _ => _ end] => destruct l as [|? ?]
  end.

Ltac bounds :=
  repeat match goal with
  | H : List.forallb isByte (_ :: _) = true |- _ => cbn [List.forallb] in H
  | H : _ && _ = true |- _ => apply andb_prop in H as [? ?]
  | H : isByte _ = true |- _ => apply isByte_range in H
  | H : isCont _ _ _ = true |- _ => apply isCont_range in H
  | H : (_ <=? _) = true |- _ => apply Z.leb_le in H
  | H : (_ <=? _) = false |- _ => apply Z.leb_gt in H
  | H : (_ =? _) = true |- _ => apply Z.eqb_eq in H
  | H : (_ =? _) = false |- _ => apply Z.eqb_neq in H
  end.

Lemma isByte_true (b : Z) : 0 <= b <= 255 -> isByte b = true.
Proof. apply isCont_true. Qed.

Ltac tail_bytes :=
  bounds; cbn [List.forallb];
  repeat (rewrite isByte_true by lia; cbn [andb]);
  assumption.

(** Whatever the bytes, the decoder produces scalar values only. *)
Lemma decodeBytes_scalars (b : list Z) :
  List.forallb isByte b = true -> List.forallb isScalar (decodeBytes b) = true.
Proof.
  assert (H : forall (n : nat) (bs : list Z),
             (List.length bs <= n)%nat -> List.forallb isByte bs = true ->
             List.forallb isScalar (decodeBytes bs) = true).
  { induction n as [|n IH]; intros bs Hlen Hb.
    - destruct bs; [reflexivity|]. cbn [List.length] in Hlen. lia.
    - destruct bs as [|b0 r0]; [reflexivity|].
      cbn [decodeBytes]. repeat decode_case;
        cbn [List.length] in Hlen;
        cbn [List.forallb]; try reflexivity.
      all: apply andb_true_intro; split.
      all: try reflexivity.
      all: try (apply IH; [cbn [List.length] in *; lia|]).
      all: try tail_bytes.
      all: bounds; apply isScalar_intro.
      all: rewrite ?addBits_arith.
      all: try change 0x1F with (Z.ones 5); try change 0xF with (Z.ones 4);
           try change 0x7 with (Z.ones 3); rewrite ?Z.land_ones by lia.
      all: try change (2 ^ 5) with 32; try change (2 ^ 4) with 16; try change (2 ^ 3) with 8.
      all: divmod. }
  intros Hb. exact (H (List.length b) b (le_n _) Hb).
Qed.

(** [TextDecoder] produces scalar values only. *)
Lemma TextDecoder_scalars (b : list Z) :
  List.forallb isByte b = true -> List.forallb isScalar (TextDecoder_decode b) = true.
Proof.
  intros Hb. unfold TextDecoder_decode.
  destruct b as [|b0 [|b1 [|b2 rest]]]; try (apply decodeBytes_scalars; exact Hb).
  destruct ((b0 =? 0xEF) && (b1 =? 0xBB) && (b2 =? 0xBF));
    apply decodeBytes_scalars; [|exact Hb].
  cbn [List.forallb] in Hb.
  apply andb_prop in Hb as [_ Hb]. apply andb_prop in Hb as [_ Hb].
  apply andb_prop in Hb as [_ Hb]. exact Hb.
Qed.

Lemma cons_neq {A : Type} (x : A) (l : list A) : x :: l <> l.
Proof.
  intros H. apply (f_equal (@List.length A)) in H. cbn [List.length] in H. lia.
Qed.

(** Bytes that [TextDecoder] and [TextEncoder] give back unchanged are the
    encoding of a well-formed string, and only those are given back. *)
Lemma reencoded_unchanged (b : list Z) :
  List.forallb isByte b = true ->
  TextEncoder_encode (TextDecoder_decode b) = b <->
  exists s : list Z, wellFormed s = true /\ b = TextEncoder_encode s.
Proof.
  intros Hb. split.
  - intros Heq. exists (TextDecoder_decode b). split; [|symmetry; exact Heq].
    pose proof (TextDecoder_scalars b Hb) as Hs.
    unfold wellFormed. rewrite Hs. cbn [andb].
    destruct (TextDecoder_decode b) as [|cp t] eqn:Hdec; [reflexivity|].
    destruct (Z.eqb_spec cp 0xFEFF) as [->|_]; [exfalso|reflexivity].
    cbn [List.forallb] in Hs. apply andb_prop in Hs as [_ Ht].
    change (TextEncoder_encode (0xFEFF :: t))
      with (0xEF :: 0xBB :: 0xBF :: TextEncoder_encode t) in Heq.
    rewrite <- Heq in Hdec.
    change (TextDecoder_decode (0xEF :: 0xBB :: 0xBF :: TextEncoder_encode t))
      with (decodeBytes (TextEncoder_encode t)) in Hdec.
    rewrite encode_scalars in Hdec by exact Ht.
    symmetry in Hdec. exact (cons_neq _ _ Hdec).
  - intros [s [Hwf ->]]. rewrite decode_encode by exact Hwf. reflexivity.
Qed.

(** ** The round trip of [writeFile] and [readFile] *)

Section RoundTrip.

Context {W : Type}.
Variable deno : Deno W.
Hypothesis lawful : ReadsBackWrites deno.

(** What a successful [writeFile] wrote is what the platform reads back. *)
Lemma writeFile_stores (path : string) (data : Data) (options : Arg) (w w' : W) :
  writeFile deno path data options w = (Ok RUndefined, w') ->
  exists encoding : Field,
    prop (orDefault options writeDefaults) "encoding" = Ok encoding /\
    fst (Deno_readFile deno path w') = Ok (storedBytes (isUtf8 encoding) data).
Proof.
  unfold writeFile. intros H.
  destruct (prop (orDefault options writeDefaults) "encoding") as [encoding|e] eqn:Hp.
  2:{ simpl in H. destruct (matchesCannotCreate (message e)); discriminate. }
  exists encoding. split; [reflexivity|].
  assert (Hw : exists b, storedBytes (isUtf8 encoding) data = b /\
                         Deno_writeFile deno path b w = (Ok tt, w')).
  { unfold storedBytes. unfold resolved in H.
    destruct data as [s|b]; destruct (isUtf8 encoding);
      rewrite ?(writes_text deno lawful) in H;
      match type of H with
      | context [Deno_writeFile deno path ?x w] =>
          exists x; split; [reflexivity|];
          destruct (Deno_writeFile deno path x w) as [[[]|e] w1]; simpl in H;
          [injection H as <-; reflexivity
          |destruct (matchesCannotCreate (message e)); discriminate]
      end. }
  destruct Hw as [b [-> Hw]]. exact (reads_back deno lawful path b w w' Hw).
Qed.

(** [readFile] as raw bytes returns what the file holds. *)
Lemma readFile_bytes (path : string) (options : Arg) (w : W) (b : list Z) :
  isUtf8 (optProp options "encoding") = false ->
  fst (Deno_readFile deno path w) = Ok b ->
  fst (readFile deno path options w) = Ok (RData (DBuffer b)).
Proof.
  intros Hbin H. unfold readFile, resolved. rewrite Hbin. cbn [fst].
  rewrite H. reflexivity.
Qed.

(** [readFile] as text of a file that holds the encoding of a well-formed
    string returns the string. *)
Lemma readFile_text (path : string) (options : Arg) (w : W) (s : list Z) :
  isUtf8 (optProp options "encoding") = true ->
  wellFormed s = true ->
  fst (Deno_readFile deno path w) = Ok (TextEncoder_encode s) ->
  fst (readFile deno path options w) = Ok (RData (DString s)).
Proof.
  intros Htext Hwf H. unfold readFile, resolved. rewrite Htext. cbn [fst].
  rewrite (reads_text deno lawful path s w Hwf H). reflexivity.
Qed.

End RoundTrip.

(** C7, as amended. On a platform that reads back what was written, after
    a successful [writeFile]:
    - [readFile] of the same path as raw bytes returns the stored bytes;
    - the stored bytes are the content that was written when the data was
      a string or the write encoding was not text;
    - for binary data written under the text encoding, the stored bytes
      are the data exactly when the data is the UTF-8 encoding of a
      well-formed string (scalar values, no byte order mark at the start);
    - when the content written is the encoding of a well-formed string,
      [readFile] returns byte-identical content under every combination of
      write and read encodings, and the string itself when read as text. *)
Theorem writeFile_readFile_roundtrip {W : Type} (deno : Deno W) (path : string)
  (data : Data) (options : Arg) (w w' : W) :
  ReadsBackWrites deno ->
  writeFile deno path data options w = (Ok RUndefined, w') ->
  exists encoding : Field,
    prop (orDefault options writeDefaults) "encoding" = Ok encoding /\
    (forall readOptions : Arg,
       isUtf8 (optProp readOptions "encoding") = false ->
       fst (readFile deno path readOptions w') =
         Ok (RData (DBuffer (storedBytes (isUtf8 encoding) data)))) /\
    (isString data || negb (isUtf8 encoding) = true ->
     storedBytes (isUtf8 encoding) data = contentBytes data) /\
    (forall b : list Z,
       data = DBuffer b -> isUtf8 encoding = true -> List.forallb isByte b = true ->
       (storedBytes (isUtf8 encoding) data = contentBytes data <->
        exists s : list Z, wellFormed s = true /\ b = TextEncoder_encode s)) /\
    (forall (s : list Z) (readOptions : Arg),
       wellFormed s = true -> contentBytes data = TextEncoder_encode s ->
       exists d' : Data,
         fst (readFile deno path readOptions w') = Ok (RData d') /\
         contentBytes d' = contentBytes data /\
         (isUtf8 (optProp readOptions "encoding") = true -> d' = DString s)).
Proof.
  intros lawful Hw.
  destruct (writeFile_stores deno lawful path data options w w' Hw) as [encoding [Hp Hr]].
  exists encoding. split; [exact Hp|]. split; [|split; [|split]].
  - intros readOptions Hbin. apply readFile_bytes; assumption.
  - intros Hcase. destruct data as [s|b]; [reflexivity|].
    cbn [isString orb] in Hcase. apply negb_true_iff in Hcase.
    unfold storedBytes. rewrite Hcase. reflexivity.
  - intros b -> Htext Hb. rewrite Htext. cbn [storedBytes contentBytes].
    apply reencoded_unchanged. exact Hb.
  - intros s readOptions Hwf Hs.
    assert (Hst : storedBytes (isUtf8 encoding) data = TextEncoder_encode s).
    { destruct data as [s1|b]; cbn [storedBytes contentBytes] in *; [exact Hs|].
      destruct (isUtf8 encoding); [|exact Hs].
      rewrite Hs, decode_encode by assumption. reflexivity. }
    rewrite Hst in Hr.
    destruct (isUtf8 (optProp readOptions "encoding")) eqn:Hread.
    + exists (DString s). split; [apply (readFile_text deno lawful); assumption|].
      split; [symmetry; exact Hs|reflexivity].
    + exists (DBuffer (TextEncoder_encode s)).
      split; [apply readFile_bytes; assumption|].
      split; [symmetry; exact Hs|discriminate].
Qed.

(** *** The in-memory platform reads back what it wrote *)

Lemma follow_insert (fuel : nat) (n : gmap string Node) (p : string) (nd : option Node)
  (b : list Z) (m : Z) :
  forall path : string,
    follow fuel n path = Ok (p, nd) ->
    follow fuel (<[p := NFile b m]> n) path = Ok (p, Some (NFile b m)).
Proof.
  induction fuel as [|fuel IH]; intros path H.
  - cbn [follow] in *.
    destruct (n !! path) as [[c m'|md|target]|] eqn:Hl; try discriminate;
      injection H as <- <-; rewrite lookup_insert_eq; reflexivity.
  - cbn [follow] in *.
    destruct (n !! path) as [[c m'|md|target]|] eqn:Hl;
      try (injection H as <- <-; rewrite lookup_insert_eq; reflexivity).
    assert (Hne : p <> path).
    { intros ->. clear IH.
      assert (Hend : forall f q, follow f n q = Ok (path, nd) ->
                                 n !! path <> Some (NLink target)).
      { induction f as [|f IHf]; intros q Hq; cbn [follow] in Hq.
        - destruct (n !! q) as [[| |t]|] eqn:Hq'; try discriminate;
            injection Hq as <- <-; rewrite Hq'; discriminate.
        - destruct (n !! q) as [[| |t]|] eqn:Hq';
            try (injection Hq as <- <-; rewrite Hq'; discriminate).
          eapply IHf; eassumption. }
      exact (Hend fuel target H Hl). }
    rewrite lookup_insert_ne, Hl by assumption. apply IH. exact H.
Qed.

Lemma memDeno_reads_back : ReadsBackWrites memDeno.
Proof.
  split.
  - intros path b w w' H. cbn [memDeno Deno_writeFile Deno_readFile] in *.
    unfold mem_writeFile in H. unfold mem_readFile. cbn [fst].
    destruct (follow 40 (nodes w) path) as [[p nd]|e] eqn:Hf; [|discriminate].
    destruct nd as [[c m|md|target]|]; try discriminate;
      injection H as <-; cbn [nodes withNodes];
      rewrite (follow_insert 40 (nodes w) p _ b _ path Hf); reflexivity.
  - reflexivity.
  - intros path s w Hwf H. cbn [memDeno Deno_readTextFile Deno_readFile] in *.
    unfold resolvedText. cbn [fst]. rewrite H. cbn [bind].
    unfold wellFormed in Hwf. apply andb_prop in Hwf as [Hs _].
    rewrite encode_scalars by exact Hs. reflexivity.
Qed.

(** The amended round trip at a concrete file: the text [h é €] written
    as binary data under the text encoding, read back as bytes and as
    text. *)
Lemma writeFile_readFile_roundtrip_witness :
  let data := DBuffer [104; 195; 169; 226; 130; 172] in
  let options := AObj {[ "encoding" := FStr "utf8" ]} in
  let w' := snd (writeFile memDeno "f" data options emptyFS) in
  fst (readFile memDeno "f" AUndefined w') = Ok (RData (DBuffer (storedBytes true data))) /\
  (storedBytes true data = contentBytes data <->
   exists s : list Z,
     wellFormed s = true /\ [104; 195; 169; 226; 130; 172] = TextEncoder_encode s) /\
  exists d' : Data,
    fst (readFile memDeno "f" options w') = Ok (RData d') /\
    contentBytes d' = contentBytes data /\
    d' = DString [104; 233; 8364].
Proof.
  intros data options w'.
  destruct (writeFile_readFile_roundtrip memDeno "f" data options emptyFS w'
              memDeno_reads_back eq_refl)
    as [encoding [Hp [Hbin [_ [Hiff Hwf]]]]].
  assert (He : encoding = FStr "utf8").
  { vm_compute in Hp. injection Hp as <-. reflexivity. }
  subst encoding. split; [exact (Hbin AUndefined eq_refl)|].
  split; [exact (Hiff _ eq_refl eq_refl eq_refl)|].
  destruct (Hwf [104; 233; 8364] options eq_refl eq_refl) as [d' [Hr [Hc Hd]]].
  exists d'. split; [exact Hr|]. split; [exact Hc|]. exact (Hd eq_refl).
Defined.

(** C7, as stated, fails: the byte [0xFF] written as binary data under the
    text encoding is stored as the encoding of U+FFFD, and neither the
    text nor the binary [readFile] returns content with the byte that was
    written. *)
Lemma writeFile_readFile_not_identical :
  let options := AObj {[ "encoding" := FStr "utf8" ]} in
  let written := writeFile memDeno "f" (DBuffer [255]) options emptyFS in
  fst written = Ok RUndefined /\
  fst (readFile memDeno "f" options (snd written)) = Ok (RData (DString [0xFFFD])) /\
  fst (readFile memDeno "f" AUndefined (snd written)) = Ok (RData (DBuffer [239; 191; 189])) /\
  contentBytes (DString [0xFFFD]) <> contentBytes (DBuffer [255]) /\
  contentBytes (DBuffer [239; 191; 189]) <> contentBytes (DBuffer [255]).
Proof. cbv zeta. repeat split; try reflexivity; discriminate. Qed.

(* ================================================================== *)
(** * Part III. Further properties of the code                          *)
(* ================================================================== *)

(** ** Sources without an iterator of their own *)

(** X5. [forAwait] over a boolean or a number, which has none of the
    iteration protocols: the value is wrapped by [fromValue], the callback
    runs on it once when it is truthy and not at all when it is falsy
    ([false], [0], [NaN]), two [next()] calls are made and then
    [return()]; when the callback throws, the loop stops after the first
    [next()] and [return()] is not called. *)
Theorem forAwait_plain_value {A : Type} (v : JsValue) (cb : JsValue -> A -> Result A)
  (a : A) (tr : list Event) (fuel : nat) :
  hasNoIterator v = true ->
  forAwait (S (S fuel)) (plainValue v) cb a tr =
    match (if truthy v then cb v a else Ok a) with
    | Ok a' =>
        Some (Ok a', withState (fromValue v) [],
              tr ++ [EvNext (Ok {| value := v; done := false |});
                     EvNext (Ok exhausted); EvReturn])
    | Throw e =>
        Some (Throw e, withState (fromValue v) [],
              tr ++ [EvNext (Ok {| value := v; done := false |})])
    end.
Proof.
  intros _. unfold forAwait. change (getIterator (plainValue v)) with (fromValue v).
  cbn [forAwait_loop].
  change (next (fromValue v) (current (fromValue v)))
    with (Ok {| value := v; done := false |}, @nil JsValue).
  cbv beta iota. cbn [value done].
  destruct (if truthy v then cb v a else Ok a) as [a'|e]; [|reflexivity].
  change (next (fromValue v) []) with (Ok exhausted, @nil JsValue).
  cbv beta iota. cbn [value done exhausted truthy].
  cbn [return_ fromValue]. rewrite <- !app_assoc. reflexivity.
Qed.

(** The number 7 as a source: the callback receives it once. *)
Lemma forAwait_plain_value_witness :
  forAwait 2 (plainValue (VNum 7)) recordCall [] [] =
    Some (Ok [VNum 7], withState (fromValue (VNum 7)) [],
          [EvNext (Ok {| value := VNum 7; done := false |});
           EvNext (Ok exhausted); EvReturn]).
Proof.
  exact (forAwait_plain_value (VNum 7) recordCall [] [] 0 eq_refl).
Defined.

(** The array iterator, started at index [i], gives the remaining items and
    then reports completion. *)
Lemma arrayIterator_delivers_from (items : list JsValue) (k : nat) :
  forall i : nat,
    (i + k = List.length items)%nat ->
    Delivers (arrayIterator items) i (itemResults (List.skipn i items)) (List.length items).
Proof.
  induction k as [|k IH]; intros i Hi.
  - assert (i = List.length items) by lia. subst i.
    rewrite List.skipn_all. apply delivers_last; [|reflexivity].
    cbn [next arrayIterator].
    rewrite (proj2 (List.nth_error_None items (List.length items)) (le_n _)).
    reflexivity.
  - destruct (List.nth_error items i) as [v|] eqn:Hv.
    2:{ apply List.nth_error_None in Hv. lia. }
    destruct (List.nth_error_split items i Hv) as [l1 [l2 [Hitems Hl1]]].
    assert (Hskip : List.skipn i items = v :: List.skipn (S i) items).
    { rewrite Hitems, <- Hl1.
      rewrite List.skipn_app, List.skipn_all, Nat.sub_diag. cbn [app List.skipn].
      rewrite List.skipn_app, (List.skipn_all2 l1) by lia.
      replace (S (List.length l1) - List.length l1)%nat with 1%nat by lia.
      reflexivity. }
    rewrite Hskip. unfold itemResults. cbn [List.map app].
    eapply delivers_step.
    + cbn [next arrayIterator]. rewrite Hv. reflexivity.
    + reflexivity.
    + apply IH. lia.
Qed.

Lemma arrayIterable_delivers (items : list JsValue) :
  Delivers (getIterator (arrayIterable items)) (current (getIterator (arrayIterable items)))
    (itemResults items) (List.length items).
Proof. exact (arrayIterator_delivers_from items (List.length items) 0%nat eq_refl). Qed.

Lemma itemResults_truthy (items : list JsValue) :
  List.filter truthy (List.map value (itemResults items)) = List.filter truthy items.
Proof.
  unfold itemResults. rewrite List.map_app, List.map_map, List.filter_app.
  cbn [List.map List.filter value exhausted truthy]. rewrite app_nil_r.
  rewrite List.map_id. reflexivity.
Qed.

Lemma filter_truthy_bytes (chunks : list (list Z)) :
  List.filter truthy (List.map VBytes chunks) = List.map VBytes chunks.
Proof. induction chunks as [|c chunks IH]; simpl; [reflexivity|]. rewrite IH. reflexivity. Qed.

(** X6. [collect] over an array of byte chunks, the shape [request] itself
    gives a buffered response body: with fuel for one [next()] per chunk
    and one more, it returns the chunks concatenated, the empty buffer for
    the empty array, and calls no [return()], which the array iterator does
    not have. *)
Theorem collect_array_of_chunks (chunks : list (list Z)) (tr : list Event) (fuel : nat) :
  (List.length chunks < fuel)%nat ->
  collect fuel (arrayIterable (List.map VBytes chunks)) tr =
    Some (Ok (List.concat chunks),
          withState (arrayIterator (List.map VBytes chunks)) (List.length chunks),
          tr ++ nextEvents (itemResults (List.map VBytes chunks))).
Proof.
  intros Hfuel.
  rewrite (collect_chunks (arrayIterable (List.map VBytes chunks))
             (itemResults (List.map VBytes chunks))
             (List.length (List.map VBytes chunks)) chunks tr fuel).
  - rewrite List.length_map. cbn [returnEvents getIterator arrayIterable syncIterator
      asyncIterator return_ arrayIterator afterReturn].
    rewrite app_nil_r. reflexivity.
  - apply arrayIterable_delivers.
  - rewrite itemResults_truthy. apply filter_truthy_bytes.
  - unfold itemResults. rewrite length_app, !List.length_map. simpl. lia.
Qed.

(** [collect] over a three-chunk array, one of the chunks empty. *)
Lemma collect_array_of_chunks_witness :
  collect 4 (arrayIterable [VBytes [1; 2]; VBytes []; VBytes [3]]) [] =
    Some (Ok [1; 2; 3],
          withState (arrayIterator [VBytes [1; 2]; VBytes []; VBytes [3]]) 3%nat,
          nextEvents (itemResults [VBytes [1; 2]; VBytes []; VBytes [3]])).
Proof.
  exact (collect_array_of_chunks [[1; 2]; []; [3]] [] 4 (le_n 4)).
Defined.

(** ** Chunks that are not byte arrays *)

Lemma foldCb_collect_cb_any (vs buffers : list JsValue) (sz : option nat) :
  foldCb collect_cb vs (buffers, sz) =
    Ok (buffers ++ vs, List.fold_left (fun s v => num_add s (byteLength v)) vs sz).
Proof.
  revert buffers sz. induction vs as [|v vs IH]; intros buffers sz; simpl.
  - rewrite app_nil_r. reflexivity.
  - rewrite IH, <- app_assoc. reflexivity.
Qed.

Lemma size_stays_NaN (vs : list JsValue) :
  List.fold_left (fun s v => num_add s (byteLength v)) vs None = None.
Proof. induction vs as [|v vs IH]; simpl; [reflexivity|exact IH]. Qed.

(** One value without a [byteLength] makes the size [NaN]. *)
Lemma size_NaN (vs : list JsValue) (sz : option nat) :
  List.existsb (fun v => negb (isBytes v)) vs = true ->
  List.fold_left (fun s v => num_add s (byteLength v)) vs sz = None.
Proof.
  revert sz. induction vs as [|v vs IH]; intros sz H; [discriminate|].
  cbn [List.existsb] in H. cbn [List.fold_left].
  destruct v; cbn [isBytes negb orb] in H;
    try (cbn [byteLength]; destruct sz; cbn [num_add]; apply size_stays_NaN).
  apply IH. exact H.
Qed.

(** Copying into a buffer of length 0 either throws or leaves it empty. *)
Lemma collect_copy_no_room (vs : list JsValue) :
  forall idx : option nat,
    idx = Some 0%nat \/ idx = None ->
    collect_copy vs [] idx = Ok [] \/ collect_copy vs [] idx = Throw rangeError.
Proof.
  induction vs as [|v vs IH]; intros idx Hidx; [left; reflexivity|].
  cbn [collect_copy]. unfold Uint8Array_set.
  assert (Hoff : default 0%nat idx = 0%nat) by (destruct Hidx; subst; reflexivity).
  rewrite Hoff. cbn [List.length Nat.add].
  destruct (arrayLike v) as [|x src] eqn:Hsrc.
  - cbn [List.length Nat.ltb Nat.leb bind List.firstn List.skipn app].
    apply IH. destruct v; cbn [byteLength]; cbn [arrayLike] in Hsrc;
      try (right; destruct idx; reflexivity).
    subst b. destruct Hidx; subst; [left|right]; reflexivity.
  - right. reflexivity.
Qed.

(** X7. A finite source whose values are [Uint8Array]s, booleans, numbers
    and strings: when one of the truthy values it delivers is a boolean, a
    number or a string, which have no [byteLength], [collect] does not
    return the delivered bytes: the size it sums is [NaN], the buffer it
    allocates has length 0, and it either throws a [RangeError] or returns
    the empty buffer. A [Uint8Array] handed over as the source itself,
    which is iterated number by number, is such a source. *)
Theorem collect_needs_byte_chunks (iterable : Iterable) (rs : list IterResult)
  (s' : state (getIterator iterable)) (tr : list Event) (fuel : nat) :
  Delivers (getIterator iterable) (current (getIterator iterable)) rs s' ->
  List.existsb (fun v => negb (isBytes v)) (List.filter truthy (List.map value rs)) = true ->
  (List.length rs <= fuel)%nat ->
  exists res : Result (list Z),
    collect fuel iterable tr =
      Some (res, afterReturn (getIterator iterable) s',
            tr ++ nextEvents rs ++ returnEvents (getIterator iterable)) /\
    (res = Ok [] \/ res = Throw rangeError).
Proof.
  intros Hd Hex Hfuel. unfold collect.
  rewrite (forAwait_delivers iterable collect_cb rs s' ([], Some 0%nat)
             (List.filter truthy (List.map value rs), None) tr fuel Hd).
  - eexists. split; [reflexivity|].
    apply collect_copy_no_room. left. reflexivity.
  - rewrite foldCb_collect_cb_any, size_NaN by assumption. reflexivity.
  - assumption.
Qed.

(** The bytes 1, 0, 2 handed over as the source: the empty buffer. *)
Lemma collect_needs_byte_chunks_witness :
  exists res : Result (list Z),
    collect 4 (arrayIterable [VNum 1; VNum 0; VNum 2]) [] =
      Some (res, afterReturn (getIterator (arrayIterable [VNum 1; VNum 0; VNum 2])) 3%nat,
            nextEvents (itemResults [VNum 1; VNum 0; VNum 2])
              ++ returnEvents (getIterator (arrayIterable [VNum 1; VNum 0; VNum 2]))) /\
    (res = Ok [] \/ res = Throw rangeError).
Proof.
  exact (collect_needs_byte_chunks (arrayIterable [VNum 1; VNum 0; VNum 2])
           (itemResults [VNum 1; VNum 0; VNum 2]) 3%nat [] 4
           (arrayIterable_delivers [VNum 1; VNum 0; VNum 2]) eq_refl
           (le_n 4)).
Defined.

(** ** How [forAwait] ends *)

Lemma forAwait_loop_events {A : Type} (it : Iterator) (cb : JsValue -> A -> Result A)
  (fuel : nat) :
  forall (s s' : state it) (a : A) (tr tr' : list Event) (res : Result A),
    forAwait_loop fuel it cb s a tr = Some (res, s', tr') ->
    exists rs : list (Result IterResult), tr' = tr ++ List.map EvNext rs.
Proof.
  induction fuel as [|fuel IH]; intros s s' a tr tr' res H; [discriminate|].
  cbn [forAwait_loop] in H.
  destruct (next it s) as [[r|e] s1].
  - destruct (if truthy (value r) then cb (value r) a else Ok a) as [a1|e].
    + destruct (done r).
      * injection H as <- <- <-. exists [Ok r]. reflexivity.
      * apply IH in H. destruct H as [rs ->].
        exists (Ok r :: rs). rewrite <- app_assoc. reflexivity.
    + injection H as <- <- <-. exists [Ok r]. reflexivity.
  - injection H as <- <- <-. exists [Throw e]. reflexivity.
Qed.

Lemma next_events_no_return (rs : list (Result IterResult)) :
  List.existsb isReturn (List.map EvNext rs) = false.
Proof. induction rs as [|r rs IH]; [reflexivity|exact IH]. Qed.

(** X8. Whatever the source and the callback do, a run of [forAwait] that
    returns has called [return()] exactly when the loop ended by [break]
    and the iterator has a [return] method: when [next()] rejects or the
    callback throws, the error is passed on and [return()] is not called. *)
Theorem forAwait_returns_only_after_break {A : Type} (iterable : Iterable)
  (cb : JsValue -> A -> Result A) (a : A) (tr tr' : list Event) (fuel : nat)
  (res : Result A) (it' : Iterator) :
  forAwait fuel iterable cb a tr = Some (res, it', tr') ->
  exists evs : list Event,
    tr' = tr ++ evs /\
    List.existsb isReturn evs =
      match res, return_ (getIterator iterable) with
      | Ok _, Some _ => true
      | _, _ => false
      end.
Proof.
  unfold forAwait. intros H.
  destruct (forAwait_loop fuel (getIterator iterable) cb (current (getIterator iterable)) a tr)
    as [[[r s1] tr1]|] eqn:Hl; [|discriminate].
  destruct (forAwait_loop_events _ _ _ _ _ _ _ _ _ Hl) as [rs ->].
  destruct r as [a'|e].
  - destruct (return_ (getIterator iterable)) as [ret|].
    + injection H as <- <- <-. exists (List.map EvNext rs ++ [EvReturn]).
      split; [rewrite app_assoc; reflexivity|].
      rewrite List.existsb_app, next_events_no_return. reflexivity.
    + injection H as <- <- <-. exists (List.map EvNext rs).
      split; [reflexivity|apply next_events_no_return].
  - injection H as <- <- <-. exists (List.map EvNext rs).
    split; [reflexivity|]. rewrite next_events_no_return.
    destruct (return_ (getIterator iterable)); reflexivity.
Qed.

(** A callback that throws on the first chunk of the scripted source: one
    [next()], no [return()]. *)
Lemma forAwait_returns_only_after_break_witness :
  exists evs : list Event,
    [EvNext (Ok {| value := VBytes [1; 2]; done := false |})] = [] ++ evs /\
    List.existsb isReturn evs = false.
Proof.
  exact (forAwait_returns_only_after_break lateChunkSource
           (fun _ (_ : unit) => Throw rangeError) tt [] _ 3 _ _ eq_refl).
Defined.

(** ** The response of [request] *)

(** A run of [request] that resolves ends with its one [fetch], and what
    it resolves to is built from the response of that [fetch]. *)
Lemma request_inv (fetch : FetchInit -> Result Response) (args : RequestArgs)
  (result : RequestResult) (tr' : list Event) (fuel : nat) :
  request fuel fetch args [] = Some (Ok result, tr') ->
  exists (pre : list Event) (init : FetchInit) (res : Response),
    tr' = pre ++ [EvFetch init] /\ List.existsb isFetch pre = false /\
    fetch init = Ok res /\
    request_respond (default "GET" (a_method args)) res = Ok result.
Proof.
  unfold request. intros H.
  assert (Hf : forall body',
             bind (fetch (requestInit args body'))
               (request_respond (default "GET" (a_method args))) = Ok result ->
             exists res, fetch (requestInit args body') = Ok res /\
                         request_respond (default "GET" (a_method args)) res = Ok result).
  { intros body' Hb.
    destruct (fetch (requestInit args body')) as [res|e]; [|discriminate].
    exists res. split; [reflexivity|exact Hb]. }
  destruct (a_body args) as [b|].
  - destruct (collect fuel b []) as [[[[buf|e] it'] tr1]|] eqn:Hc; try discriminate.
    unfold request_fetch in H. injection H as Hb <-.
    destruct (proj1 (collect_inv _ _ _ _ _ _ Hc)) as [evs [-> Hevs]].
    destruct (Hf _ Hb) as [res [Hfetch Hres]].
    exists evs, (requestInit args (Some buf)), res. repeat split; assumption.
  - unfold request_fetch in H. injection H as Hb <-.
    destruct (Hf _ Hb) as [res [Hfetch Hres]].
    exists [], (requestInit args None), res. repeat split; assumption.
Qed.

Lemma headersObject_app (entries : list (string * string)) (k v : string) :
  headersObject (entries ++ [(k, v)]) = setProperty (headersObject entries) k v.
Proof. unfold headersObject. rewrite List.fold_left_app. reflexivity. Qed.

Lemma setProperty_lookup_ne (h : gmap string string) (k k' v : string) :
  k <> k' -> setProperty h k' v !! k = h !! k.
Proof.
  intros Hne. unfold setProperty. destruct (String.eqb k' "__proto__"); [reflexivity|].
  apply lookup_insert_ne. congruence.
Qed.

(** A name other than ["__proto__"] maps to the value of the last entry
    that has it. *)
Lemma headersObject_lookup (entries : list (string * string)) (k : string) :
  k <> "__proto__" ->
  headersObject entries !! k =
    option_map snd (List.find (fun kv => String.eqb (fst kv) k) (List.rev entries)).
Proof.
  intros Hproto. induction entries as [|[k1 v1] entries IH] using List.rev_ind.
  - apply lookup_empty.
  - rewrite headersObject_app, List.rev_app_distr. cbn [List.rev app List.find fst].
    destruct (String.eqb_spec k1 k) as [->|Hne].
    + unfold setProperty.
      destruct (String.eqb_spec k "__proto__") as [Heq|_]; [contradiction|].
      apply lookup_insert_eq.
    + rewrite setProperty_lookup_ne by congruence. exact IH.
Qed.

(** X9. The header object a resolved [request] returns gets its own
    properties from the entries of the response alone: a name other than
    ["__proto__"] maps to the value of the last entry of the response that
    has this name, and is no property of the object when the response has
    no such entry, whatever headers the request carried. *)
Theorem request_headers_last_wins (fetch : FetchInit -> Result Response)
  (args : RequestArgs) (result : RequestResult) (tr' : list Event) (fuel : nat)
  (k : string) :
  request fuel fetch args [] = Some (Ok result, tr') ->
  k <> "__proto__" ->
  exists (init : FetchInit) (res : Response),
    fetch init = Ok res /\
    headers result !! k =
      option_map snd (List.find (fun kv => String.eqb (fst kv) k)
                        (List.rev (res_headers res))).
Proof.
  intros Hreq Hproto.
  destruct (request_inv fetch args result tr' fuel Hreq)
    as [pre [init [res [_ [_ [Hfetch Hres]]]]]].
  exists init, res. split; [exact Hfetch|].
  assert (Hh : headers result = headersObject (res_headers res)).
  { unfold request_respond in Hres.
    destruct (res_body res) as [stream|]; cbn [bind] in Hres.
    - injection Hres as <-. reflexivity.
    - destruct (res_arrayBuffer res) as [buf|e]; [|discriminate].
      injection Hres as <-. reflexivity. }
  rewrite Hh. apply headersObject_lookup. exact Hproto.
Qed.

(** A request that carries an [authorization] header, answered with two
    cookies: the mapping has the second cookie and no [authorization]. *)
Lemma request_headers_last_wins_witness :
  let args :=
    {| a_url := "https://example.org/info/refs"; a_method := None;
       a_headers := Some {[ "authorization" := "Basic dXNlcg==" ]}; a_body := None |} in
  let result :=
    {| url := "https://example.org/info/refs"; method := "GET"; statusCode := 200;
       statusMessage := "OK"; body := arrayIterable [VBytes []];
       headers := headersObject [("set-cookie", "a=1"); ("etag", "x"); ("set-cookie", "b=2")] |} in
  request 0 cookieFetch args [] = Some (Ok result, [EvFetch (requestInit args None)]) /\
  (exists (init : FetchInit) (res : Response),
     cookieFetch init = Ok res /\
     headers result !! "set-cookie" =
       option_map snd (List.find (fun kv => String.eqb (fst kv) "set-cookie")
                         (List.rev (res_headers res)))) /\
  (exists (init : FetchInit) (res : Response),
     cookieFetch init = Ok res /\
     headers result !! "authorization" =
       option_map snd (List.find (fun kv => String.eqb (fst kv) "authorization")
                         (List.rev (res_headers res)))) /\
  headers result !! "set-cookie" = Some "b=2" /\
  headers result !! "authorization" = None.
Proof.
  intros args result.
  assert (Hreq : request 0 cookieFetch args [] =
                 Some (Ok result, [EvFetch (requestInit args None)])) by reflexivity.
  split; [exact Hreq|]. split; [|split].
  - refine (request_headers_last_wins cookieFetch args result _ 0 "set-cookie" Hreq _).
    discriminate.
  - refine (request_headers_last_wins cookieFetch args result _ 0 "authorization" Hreq _).
    discriminate.
  - split; reflexivity.
Defined.

(** X10. A response without a readable stream: [request] makes the one
    network call and resolves with the response's URL, status and headers,
    the method it used, and a body that is a one-chunk array; collecting
    that body gives back the bytes of the response's buffer. *)
Theorem request_buffered_response (fetch : FetchInit -> Result Response)
  (args : RequestArgs) (res : Response) (buf : list Z) (tr : list Event)
  (fuel fuel' : nat) :
  a_body args = None ->
  fetch (requestInit args None) = Ok res ->
  res_body res = None ->
  res_arrayBuffer res = Ok buf ->
  exists result : RequestResult,
    request fuel fetch args tr =
      Some (Ok result, tr ++ [EvFetch (requestInit args None)]) /\
    url result = res_url res /\
    method result = default "GET" (a_method args) /\
    statusCode result = res_status res /\
    statusMessage result = res_statusText res /\
    headers result = headersObject (res_headers res) /\
    collect (S (S fuel')) (body result) [] =
      Some (Ok buf, withState (arrayIterator [VBytes buf]) 1%nat,
            nextEvents (itemResults [VBytes buf])).
Proof.
  intros Hbody Hfetch Hstream Hbuf.
  unfold request, request_fetch, request_respond. rewrite Hbody, Hfetch.
  cbn [bind]. rewrite Hstream, Hbuf. cbn [bind].
  eexists. split; [reflexivity|]. cbn [url method statusCode statusMessage headers body].
  repeat (split; [reflexivity|]).
  rewrite (collect_chunks (arrayIterable [VBytes buf]) (itemResults [VBytes buf])
             1%nat [buf] [] (S (S fuel'))).
  - cbn [List.concat]. rewrite app_nil_r. reflexivity.
  - apply (arrayIterable_delivers [VBytes buf]).
  - reflexivity.
  - simpl. lia.
Qed.

(** A [GET] answered by the echoing server with an empty buffer. *)
Lemma request_buffered_response_witness :
  exists result : RequestResult,
    request 0 echoFetch
      {| a_url := "https://example.org/info/refs"; a_method := None;
         a_headers := None; a_body := None |} [] =
      Some (Ok result,
            [] ++ [EvFetch (requestInit
                     {| a_url := "https://example.org/info/refs"; a_method := None;
                        a_headers := None; a_body := None |} None)]) /\
    url result = "https://example.org/info/refs" /\
    method result = "GET" /\
    statusCode result = 200 /\
    statusMessage result = "OK" /\
    headers result = headersObject [("content-type", "application/octet-stream")] /\
    collect 2 (body result) [] =
      Some (Ok [], withState (arrayIterator [VBytes []]) 1%nat,
            nextEvents (itemResults [VBytes []])).
Proof.
  exact (request_buffered_response echoFetch
           {| a_url := "https://example.org/info/refs"; a_method := None;
              a_headers := None; a_body := None |}
           _ [] [] 0 0 eq_refl eq_refl eq_refl eq_refl).
Defined.




(** ** Options of the promise form *)

Section Options.

Context {W : Type}.
Variable deno : Deno W.

Lemma prop_insert_ne (o : gmap string Field) (key k : string) (v : Field) :
  key <> k -> @prop (AObj (<[key := v]> o)) k = prop (AObj o) k.
Proof. intros H. cbn [prop]. rewrite lookup_insert_ne by assumption. reflexivity. Qed.

(** X12. Options the operations do not read have no effect. [writeFile]
    and [readFile] read [encoding] only, so a [flag] (append, exclusive
    create), a [mode] or a [signal] changes nothing; [rmdir] reads
    [recursive] only, so [maxRetries] and [retryDelay] change nothing;
    [readdir] reads [withFileTypes] only; [mkdir] reads [recursive] and
    [mode]; [stat] and [readlink] read nothing. *)
Theorem unused_options_ignored (path : string) (data : Data) (o : gmap string Field)
  (key : string) (v : Field) (options options' : Arg) (w : W) :
  (key <> "encoding" ->
   writeFile deno path data (AObj (<[key := v]> o)) w = writeFile deno path data (AObj o) w /\
   readFile deno path (AObj (<[key := v]> o)) w = readFile deno path (AObj o) w) /\
  (key <> "recursive" ->
   rmdir deno path (AObj (<[key := v]> o)) w = rmdir deno path (AObj o) w) /\
  (key <> "withFileTypes" ->
   readdir deno path (AObj (<[key := v]> o)) w = readdir deno path (AObj o) w) /\
  (key <> "recursive" -> key <> "mode" ->
   mkdir deno path (AObj (<[key := v]> o)) w = mkdir deno path (AObj o) w) /\
  stat deno path options w = stat deno path options' w /\
  readlink deno path options w = readlink deno path options' w.
Proof.
  repeat split.
  - unfold writeFile. cbn [orDefault]. rewrite prop_insert_ne by assumption. reflexivity.
  - unfold readFile. cbn [optProp]. rewrite lookup_insert_ne by assumption. reflexivity.
  - intros H. unfold rmdir. cbn [orDefault]. rewrite prop_insert_ne by assumption. reflexivity.
  - intros H. unfold readdir. cbn [orDefault]. rewrite prop_insert_ne by assumption.
    reflexivity.
  - intros H1 H2. unfold mkdir. cbn [orDefault spread].
    rewrite !lookup_union, !lookup_insert_ne by assumption. reflexivity.
Qed.

(** What [mkdir] passes to the platform for an options object: each of
    [recursive] and [mode] is the caller's when the object has the
    property and the default ([false], [0o777]) otherwise, and a string
    mode goes through [parseInt]. *)
Theorem mkdir_passes_merged_options (path : string) (o : gmap string Field) (w : W) :
  mkdir deno path (AObj o) w =
    (catchMkdir path
       (fst (resolved (fun _ => RUndefined)
               (Deno_mkdir deno path
                  (default (FBool false) (o !! "recursive"))
                  (mkdirMode (default (FNum (Finite 511)) (o !! "mode"))) w))),
     snd (Deno_mkdir deno path
            (default (FBool false) (o !! "recursive"))
            (mkdirMode (default (FNum (Finite 511)) (o !! "mode"))) w)).
Proof.
  unfold mkdir. cbn [orDefault spread]. rewrite !lookup_union.
  change (mkdirDefaults !! "recursive") with (Some (FBool false)).
  change (mkdirDefaults !! "mode") with (Some (FNum (Finite 511))).
  destruct (o !! "recursive"), (o !! "mode"); reflexivity.
Qed.

(** X14. [rmdir] without options, or with [recursive: false], is [unlink]:
    the same platform call with the same error translation, so it removes
    a file as well and does not ask for a directory. *)
Theorem rmdir_is_unlink (path : string) (w : W) :
  rmdir deno path AUndefined w = unlink deno path w /\
  rmdir deno path (AObj {[ "recursive" := FBool false ]}) w = unlink deno path w.
Proof. split; reflexivity. Qed.

(** X15. [null] for the options. [writeFile], [readdir] and [rmdir] read a
    property of it inside their [try] block: they reject with the
    [TypeError], which no pattern matches, and the platform is not called.
    [readFile] and [mkdir] treat it as no options. *)
Theorem null_options (path : string) (data : Data) (w : W) :
  (exists e, writeFile deno path data ANull w = (Throw e, w) /\
             name e = "TypeError" /\ code e = None) /\
  (exists e, readdir deno path ANull w = (Throw e, w) /\
             name e = "TypeError" /\ code e = None) /\
  (exists e, rmdir deno path ANull w = (Throw e, w) /\
             name e = "TypeError" /\ code e = None) /\
  readFile deno path ANull w = readFile deno path AUndefined w /\
  mkdir deno path ANull w = mkdir deno path AUndefined w.
Proof.
  repeat split; try (eexists; repeat split).
Qed.

(** [f === "utf8"] holds of the string ["utf8"] only. *)
Lemma isUtf8_exact (f : Field) : isUtf8 f = true <-> f = FStr "utf8".
Proof.
  split.
  - destruct f; try discriminate. cbn [isUtf8]. intros H.
    apply String.eqb_eq in H. subst s. reflexivity.
  - intros ->. reflexivity.
Qed.

(** X16. What [readFile] resolves to is a string exactly when the
    [encoding] option is the string ["utf8"]; with no encoding, with
    ["utf-8"] or with any other encoding name it is the file's bytes. *)
Theorem readFile_text_only_for_utf8 (path : string) (options : Arg) (w : W) (r : OpValue) :
  fst (readFile deno path options w) = Ok r ->
  exists d : Data,
    r = RData d /\
    (isString d = true <-> optProp options "encoding" = FStr "utf8").
Proof.
  unfold readFile, resolved. intros H.
  destruct (isUtf8 (optProp options "encoding")) eqn:Hu; cbn [fst] in H.
  - destruct (fst (Deno_readTextFile deno path w)) as [s|e]; cbn [bind catchNotFound] in H.
    + injection H as <-. eexists. split; [reflexivity|].
      cbn [isString]. rewrite <- isUtf8_exact, Hu. tauto.
    + destruct (matchesNotFound (message e)); discriminate.
  - destruct (fst (Deno_readFile deno path w)) as [b|e]; cbn [bind catchNotFound] in H.
    + injection H as <-. eexists. split; [reflexivity|].
      cbn [isString]. rewrite <- isUtf8_exact, Hu. split; discriminate.
    + destruct (matchesNotFound (message e)); discriminate.
Qed.

End Options.

(** [readFile] with the encoding ["utf-8"] on the one-file store: bytes. *)
Lemma readFile_text_only_for_utf8_witness :
  exists d : Data,
    RData (DBuffer [104; 105]) = RData d /\
    (isString d = true <->
     optProp (AObj {[ "encoding" := FStr "utf-8" ]}) "encoding" = FStr "utf8").
Proof.
  exact (readFile_text_only_for_utf8 memDeno "a.txt"
           (AObj {[ "encoding" := FStr "utf-8" ]}) oneFileFS _ eq_refl).
Defined.

(** ** More of the error translation *)

Section Translation.

Context {W : Type}.
Variable deno : Deno W.



(** X19. [symlink] and [chmod] have no [catch] block: whatever the platform
    rejects with, a not-found error included, is what they reject with,
    with no [code] added. *)
Theorem symlink_and_chmod_do_not_translate (target path : string) (type : Field)
  (mode : Z) (w : W) (err : NodeError) :
  (fst (Deno_chmod deno path mode w) = Throw err ->
   fst (chmod deno path mode w) = Throw err) /\
  ((forall ty, fst (Deno_symlink deno path target ty w) = Throw err) ->
   fst (symlink deno target path type w) = Throw err).
Proof.
  split.
  - intros H. unfold chmod, resolved. cbn [fst]. rewrite H. reflexivity.
  - intros H. unfold symlink.
    destruct (fieldTruthy match type with FUndefined => FStr "file" | _ => type end);
      unfold resolved; cbn [fst]; rewrite H; reflexivity.
Qed.

End Translation.

(** [chmod] of a missing path on the in-memory platform: the platform's
    error, which has no [code]. *)
Lemma symlink_and_chmod_do_not_translate_witness :
  fst (chmod memDeno "missing" 420 emptyFS) = Throw notFound.
Proof.
  exact (proj1 (symlink_and_chmod_do_not_translate memDeno "t" "missing" FUndefined 420
                  emptyFS notFound) eq_refl).
Defined.


(** ** The two forms of [readFile] *)

(** X20. The default encoding differs between the two forms. In the
    callback form, a call without options or with options that have no
    [encoding] reads the file as text: a callback that returns normally
    receives what the promise form gives for the encoding ["utf8"]. The
    promise form with the same options reads the file's bytes. *)
Theorem callback_readFile_defaults_to_text {W : Type} (deno : Deno W) (path : string)
  (o : gmap string Field) (f : Callback) (w : W) :
  o !! "encoding" = None ->
  (forall c, cb_run f c = None) ->
  calls (fs_readFile deno path (AObj o) (AFun f) w) =
    [(cb_id f, callFor (fst (readFile deno path (AObj {[ "encoding" := FStr "utf8" ]}) w)))] /\
  calls (fs_readFile deno path (AFun f) AUndefined w) =
    [(cb_id f, callFor (fst (readFile deno path (AObj {[ "encoding" := FStr "utf8" ]}) w)))] /\
  readFile deno path (AObj o) w = readFile deno path AUndefined w /\
  fst (readFile deno path AUndefined w) =
    catchNotFound "open" path
      (fst (resolved (fun b => RData (DBuffer b)) (Deno_readFile deno path w))).
Proof.
  intros Ho Hq. repeat split.
  - unfold fs_readFile, viaCallback. cbn [resolve isFunction argTruthy negb].
    cbv beta iota. unfold chain. cbn [calls r_cb r_options].
    rewrite (thenCatch_quiet _ f _ Hq). cbn [snd].
    assert (Hr : readFile deno path
                   (AObj (merge (AObj {[ "encoding" := FStr "utf8" ]}) (AObj o))) w =
                 readFile deno path (AObj {[ "encoding" := FStr "utf8" ]}) w).
    { unfold readFile. cbn [optProp]. rewrite merge_lookup. cbn [spread].
      rewrite Ho. reflexivity. }
    rewrite Hr. unfold callFor.
    destruct (fst (readFile deno path (AObj {[ "encoding" := FStr "utf8" ]}) w)); reflexivity.
  - unfold fs_readFile, viaCallback. cbn [resolve isFunction argTruthy negb].
    cbv beta iota. unfold chain. cbn [calls r_cb r_options].
    rewrite (thenCatch_quiet _ f _ Hq). cbn [snd]. unfold callFor.
    destruct (fst (readFile deno path (AObj {[ "encoding" := FStr "utf8" ]}) w)); reflexivity.
  - unfold readFile. cbn [optProp]. rewrite Ho. reflexivity.
Qed.

(** [fs.readFile("a.txt", {}, cb)] on the one-file store: the text. *)
Lemma callback_readFile_defaults_to_text_witness :
  calls (fs_readFile memDeno "a.txt" (AObj ∅) (AFun (quietCallback 5)) oneFileFS) =
    [(5%nat, {| c_err := None; c_result := Some (RData (DString [104; 105])) |})].
Proof.
  exact (proj1 (callback_readFile_defaults_to_text memDeno "a.txt" ∅ (quietCallback 5)
                  oneFileFS eq_refl (fun _ => eq_refl))).
Defined.

(** ** Operations on the in-memory platform *)

(** X21. On a store where [path] is a directory, [mkdir] without
    [recursive] rejects with [EEXIST] and syscall [mkdir], and [mkdir] with
    [recursive: true] resolves; neither changes the store. *)
Theorem mkdir_existing_directory (path : string) (m : Number) (w : MemFS) :
  nodes w !! path = Some (NDir m) ->
  mkdir memDeno path AUndefined w = (Throw (eexist "mkdir" path), w) /\
  mkdir memDeno path (AObj {[ "recursive" := FBool false ]}) w
    = (Throw (eexist "mkdir" path), w) /\
  mkdir memDeno path (AObj {[ "recursive" := FBool true ]}) w = (Ok RUndefined, w).
Proof.
  intros H. unfold mkdir, resolved. cbn [memDeno Deno_mkdir].
  repeat split.
  - change (mem_mkdir path ?r ?md w) with (mem_mkdir path (FBool false) (FNum (Finite 511)) w).
    unfold mem_mkdir. rewrite H. reflexivity.
  - change (mem_mkdir path ?r ?md w) with (mem_mkdir path (FBool false) (FNum (Finite 511)) w).
    unfold mem_mkdir. rewrite H. reflexivity.
  - change (mem_mkdir path ?r ?md w) with (mem_mkdir path (FBool true) (FNum (Finite 511)) w).
    unfold mem_mkdir. rewrite H. reflexivity.
Qed.

(** A directory made by [mkdir], made again. *)
Lemma mkdir_existing_directory_witness :
  mkdir memDeno "d" AUndefined (snd (mkdir memDeno "d" AUndefined emptyFS))
    = (Throw (eexist "mkdir" "d"), snd (mkdir memDeno "d" AUndefined emptyFS)) /\
  mkdir memDeno "d" (AObj {[ "recursive" := FBool false ]})
      (snd (mkdir memDeno "d" AUndefined emptyFS))
    = (Throw (eexist "mkdir" "d"), snd (mkdir memDeno "d" AUndefined emptyFS)) /\
  mkdir memDeno "d" (AObj {[ "recursive" := FBool true ]})
      (snd (mkdir memDeno "d" AUndefined emptyFS))
    = (Ok RUndefined, snd (mkdir memDeno "d" AUndefined emptyFS)).
Proof.
  exact (mkdir_existing_directory "d" (Finite 511)
           (snd (mkdir memDeno "d" AUndefined emptyFS)) eq_refl).
Defined.

(** X22. After [unlink] resolved, the path is gone: [stat], [lstat],
    [readFile], [readlink] and a second [unlink] of it reject with
    [ENOENT]. *)
Theorem unlink_then_missing (path : string) (w w' : MemFS) :
  unlink memDeno path w = (Ok RUndefined, w') ->
  fst (stat memDeno path AUndefined w') = Throw (enoent "stat" path) /\
  fst (lstat memDeno path w') = Throw (enoent "open" path) /\
  fst (readFile memDeno path AUndefined w') = Throw (enoent "open" path) /\
  fst (readlink memDeno path AUndefined w') = Throw (enoent "open" path) /\
  fst (unlink memDeno path w') = Throw (enoent "open" path).
Proof.
  intros H.
  assert (Hgone : nodes w' !! path = None).
  { unfold unlink, resolved in H. cbn [memDeno Deno_remove] in H.
    unfold mem_remove in H.
    destruct (nodes w !! path) as [nd|]; [|discriminate].
    cbn [fieldTruthy] in H.
    destruct (map_to_list (childrenOf path (nodes w))); [|discriminate].
    cbn in H. injection H as <-. cbn [nodes withNodes]. apply lookup_delete_eq. }
  repeat split.
  - unfold stat, resolved. cbn [memDeno Deno_stat]. unfold mem_stat.
    cbn [follow fst]. rewrite Hgone. reflexivity.
  - unfold lstat, resolved. cbn [memDeno Deno_lstat]. unfold mem_lstat.
    cbn [fst]. rewrite Hgone. reflexivity.
  - unfold readFile, resolved. cbn [optProp isUtf8 memDeno Deno_readFile]. unfold mem_readFile.
    cbn [follow fst]. rewrite Hgone. reflexivity.
  - unfold readlink, resolved. cbn [memDeno Deno_readLink]. unfold mem_readLink.
    cbn [fst]. rewrite Hgone. reflexivity.
  - unfold unlink, resolved. cbn [memDeno Deno_remove]. unfold mem_remove.
    rewrite Hgone. reflexivity.
Qed.

(** The file of the one-file store, removed. *)
Lemma unlink_then_missing_witness :
  fst (stat memDeno "a.txt" AUndefined (snd (unlink memDeno "a.txt" oneFileFS)))
    = Throw (enoent "stat" "a.txt") /\
  fst (lstat memDeno "a.txt" (snd (unlink memDeno "a.txt" oneFileFS)))
    = Throw (enoent "open" "a.txt") /\
  fst (readFile memDeno "a.txt" AUndefined (snd (unlink memDeno "a.txt" oneFileFS)))
    = Throw (enoent "open" "a.txt") /\
  fst (readlink memDeno "a.txt" AUndefined (snd (unlink memDeno "a.txt" oneFileFS)))
    = Throw (enoent "open" "a.txt") /\
  fst (unlink memDeno "a.txt" (snd (unlink memDeno "a.txt" oneFileFS)))
    = Throw (enoent "open" "a.txt").
Proof.
  exact (unlink_then_missing "a.txt" oneFileFS (snd (unlink memDeno "a.txt" oneFileFS))
           eq_refl).
Defined.

(** ** More of the callback form *)

(** X23. The callback form of [symlink] with a callback function: the
    [{ type }] object always has the property, so the default of [resolve]
    never applies, the promise form receives the caller's [type] as it is
    (its own default turns [undefined] into ["file"]), and a callback that
    returns normally receives what the promise form settles to. *)
Theorem fs_symlink_is_symlink {W : Type} (deno : Deno W) (target path : string)
  (type : Field) (f : Callback) (w : W) :
  (forall c, cb_run f c = None) ->
  fs_symlink deno target path type (AFun f) w =
    {| thrown := None;
       unhandled := None;
       calls := [(cb_id f, callFor (fst (symlink deno target path type w)))];
       world := snd (symlink deno target path type w) |}.
Proof.
  intros Hq. unfold fs_symlink, viaCallback. cbn [resolve isFunction argTruthy negb].
  cbv beta iota. cbn [r_cb r_options optProp].
  assert (Ht : default FUndefined
                 (merge (AObj {[ "type" := FStr "file" ]}) (AObj {[ "type" := type ]})
                    !! "type") = type).
  { rewrite merge_lookup. cbn [spread]. rewrite lookup_singleton_eq. reflexivity. }
  rewrite Ht. unfold chain. rewrite (thenCatch_quiet _ f _ Hq). cbn [fst snd].
  unfold callFor. reflexivity.
Qed.

(** [fs.symlink("a.txt", "link", undefined, cb)] on the empty store. *)
Lemma fs_symlink_is_symlink_witness :
  fs_symlink memDeno "a.txt" "link" FUndefined (AFun (quietCallback 2)) emptyFS =
    {| thrown := None;
       unhandled := None;
       calls := [(2%nat, callFor (fst (symlink memDeno "a.txt" "link" FUndefined emptyFS)))];
       world := snd (symlink memDeno "a.txt" "link" FUndefined emptyFS) |}.
Proof.
  exact (fs_symlink_is_symlink memDeno "a.txt" "link" FUndefined (quietCallback 2) emptyFS
           (fun _ => eq_refl)).
Defined.

(** X24. A call without a callback function. [fs.unlink] and [fs.lstat]
    hand [resolve] no options, so anything but a function in the callback
    position makes it throw, and the platform is not called: nothing is
    removed. [fs.chmod] does not call [resolve]: it throws nothing, changes
    the mode as the promise form does, and the call of the missing callback
    ends as an unhandled [TypeError]. *)
Theorem calls_without_callback {W : Type} (deno : Deno W) (path : string) (mode : Z)
  (cb : Arg) (w : W) :
  isFunction cb = false ->
  fs_unlink deno path cb w =
    {| thrown := Some (plainError "Error" "Callback function not defined");
       unhandled := None; calls := []; world := w |} /\
  fs_lstat deno path cb w =
    {| thrown := Some (plainError "Error" "Callback function not defined");
       unhandled := None; calls := []; world := w |} /\
  fs_chmod deno path mode cb w =
    {| thrown := None;
       unhandled := Some (plainError "TypeError" "cb is not a function");
       calls := [];
       world := snd (chmod deno path mode w) |}.
Proof.
  intros Hcb. repeat split.
  - unfold fs_unlink. rewrite resolve_nothing_supplied by (reflexivity || assumption).
    reflexivity.
  - unfold fs_lstat. rewrite resolve_nothing_supplied by (reflexivity || assumption).
    reflexivity.
  - unfold fs_chmod, chain, thenCatch, invoke.
    destruct cb; try discriminate; destruct (fst (chmod deno path mode w)); reflexivity.
Qed.

(** [fs.unlink("a.txt")] and [fs.chmod("a.txt", 0o600)] with no callback,
    on the one-file store. *)
Lemma calls_without_callback_witness :
  fs_unlink memDeno "a.txt" AUndefined oneFileFS =
    {| thrown := Some (plainError "Error" "Callback function not defined");
       unhandled := None; calls := []; world := oneFileFS |} /\
  fs_lstat memDeno "a.txt" AUndefined oneFileFS =
    {| thrown := Some (plainError "Error" "Callback function not defined");
       unhandled := None; calls := []; world := oneFileFS |} /\
  fs_chmod memDeno "a.txt" 384 AUndefined oneFileFS =
    {| thrown := None;
       unhandled := Some (plainError "TypeError" "cb is not a function");
       calls := [];
       world := snd (chmod memDeno "a.txt" 384 oneFileFS) |}.
Proof.
  exact (calls_without_callback memDeno "a.txt" 384 AUndefined oneFileFS eq_refl).
Defined.
